(** * Triage, slot allocation, booking and reminder logic of the
      citizens-advice web application.

    Sources embedded here:
    - [web-ui/src/components/AppointmentBooking.tsx] ([urgencyLabel]) and
      [web-ui/src/components/Dashboard.tsx] (urgency badge class);
    - the Amplify data schema (Appointment model and its authorisation
      rules) and the scheduled notifications handler ([checkDeadlines],
      [checkAppointmentFollowups], [getUserEmail]);
    - the display code of [AppointmentBooking.tsx] ([urgencyColor]),
      [Dashboard.tsx] ([getDaysUntil] and the countdown class),
      [BookingSlots.tsx] ([slotsByDate]) and [AdvisorDashboard.tsx]
      ([filteredCases], [stats], [updateCaseStatus], [addNotes]).
    The urgency scorer, slot allocator and booking confirmer belong to the
    agent ([assess_case_urgency], [get_appointment_slots],
    [book_appointment]), whose code is not part of the web sources; they
    are modelled from the specification and marked as such. *)

From Stdlib Require Import ZArith Lia Sorting.Sorted List String Ascii.
From stdpp Require Import base list gmap strings.
Import ListNotations.
Open Scope Z_scope.

(* ===================================================================== *)
(** ** Urgency score display (AppointmentBooking.tsx, Dashboard.tsx)      *)
(* ===================================================================== *)

(** [const urgencyLabel = urgencyScore >= 8 ? 'URGENT'
       : urgencyScore >= 5 ? 'Medium Priority' : 'Standard'] *)
Definition urgencyLabel (urgencyScore : Z) : string :=
  if 8 <=? urgencyScore then "URGENT"
  else if 5 <=? urgencyScore then "Medium Priority"
  else "Standard".

(** Dashboard: [urgency-${appt.urgencyScore >= 8 ? 'high'
       : appt.urgencyScore >= 5 ? 'medium' : 'low'}] *)
Definition urgencyBadge (urgencyScore : Z) : string :=
  if 8 <=? urgencyScore then "high"
  else if 5 <=? urgencyScore then "medium"
  else "low".

(* ===================================================================== *)
(** ** Urgency scorer                                                     *)
(* ===================================================================== *)

Inductive Tier := STANDARD | MEDIUM | URGENT.

#[global] Instance Tier_eq_dec : EqDecision Tier.
Proof. solve_decision. Defined.

(** Modelled from the spec: the tier function of the (absent) agent
    scorer, "Tier derived by fixed thresholds: 1-4 STANDARD, 5-7 MEDIUM,
    8-10 URGENT". *)
Definition tier_of_score (score : Z) : Tier :=
  if score <=? 4 then STANDARD
  else if score <=? 7 then MEDIUM
  else URGENT.

Inductive SeverityFlag :=
  | HomelessnessRisk | EvictionNotice | BenefitSanction
  | DebtEnforcement | CourtSummons | BailiffVisit.

Inductive VulnerabilityFlag :=
  | Disability | ChildrenPresent | Elderly | LanguageBarrier
  | MentalHealthConcern.

#[global] Instance SeverityFlag_eq_dec : EqDecision SeverityFlag.
Proof. solve_decision. Defined.
#[global] Instance VulnerabilityFlag_eq_dec : EqDecision VulnerabilityFlag.
Proof. solve_decision. Defined.

Record CaseSignals := {
  daysUntilDeadline : option Z;
  severityFlags : list SeverityFlag;
  vulnerabilityFlags : list VulnerabilityFlag
}.

Record UrgencyAssessment := {
  score : Z;
  tier : Tier
}.

(** The spec leaves the point weights open ("an implementer must choose a
    monotonic weight table"); the scorer is therefore parameterised by a
    weight table, and [weights_ok] states the spec's constraints on it. *)
Record Weights := {
  w_deadline_max : Z;   (** deadline at most 2 days away *)
  w_deadline_med : Z;   (** at most 5 days *)
  w_deadline_low : Z;   (** at most 14 days *)
  w_severity : Z;       (** per distinct severity flag *)
  w_vulnerability : Z;  (** per distinct vulnerability flag *)
  cap_vulnerability : Z (** cap of the vulnerability contribution *)
}.

Definition weights_ok (w : Weights) : bool :=
  (0 <=? w_deadline_low w) && (w_deadline_low w <=? w_deadline_med w)
  && (w_deadline_med w <=? w_deadline_max w) && (w_deadline_max w <=? 9)
  && (0 <=? w_vulnerability w) && (w_vulnerability w <=? w_severity w)
  && (0 <=? cap_vulnerability w).

(** A table consistent with the spec's worked examples (eviction notice
    with a 14-day deadline scores 6; a deadline within 2 days with one
    severity flag scores at least 8). *)
Definition default_weights : Weights := {|
  w_deadline_max := 5; w_deadline_med := 3; w_deadline_low := 2;
  w_severity := 3; w_vulnerability := 1; cap_vulnerability := 3 |}.

Definition base_score : Z := 1.

(** Modelled from the spec: deadline contribution of [assess_case_urgency]
    (inverse scale; a negative day count is clamped to zero). *)
Definition deadline_contribution (w : Weights) (d : option Z) : Z :=
  match d with
  | None => 0
  | Some d0 =>
      let d' := Z.max 0 d0 in
      if d' <=? 2 then w_deadline_max w
      else if d' <=? 5 then w_deadline_med w
      else if d' <=? 14 then w_deadline_low w
      else 0
  end.

(** Modelled from the spec: each distinct severity flag adds a fixed
    increment. *)
Definition severity_contribution (w : Weights) (fs : list SeverityFlag) : Z :=
  w_severity w * Z.of_nat (length (remove_dups fs)).

(** Modelled from the spec: each distinct vulnerability flag adds a
    smaller fixed increment, capped. *)
Definition vulnerability_contribution (w : Weights)
    (fs : list VulnerabilityFlag) : Z :=
  Z.min (cap_vulnerability w) (w_vulnerability w * Z.of_nat (length (remove_dups fs))).

(** Modelled from the spec: [assessUrgency] (the agent's
    [assess_case_urgency]): final score
    [min(10, max(1, base + deadline + severity + vulnerability))]. *)
Definition assessUrgency (w : Weights) (s : CaseSignals) : UrgencyAssessment :=
  let raw := base_score + deadline_contribution w (daysUntilDeadline s)
             + severity_contribution w (severityFlags s)
             + vulnerability_contribution w (vulnerabilityFlags s) in
  let sc := Z.min 10 (Z.max 1 raw) in
  {| score := sc; tier := tier_of_score sc |}.

(* ===================================================================== *)
(** ** Slot allocator                                                     *)
(* ===================================================================== *)

(** Times are epoch milliseconds, as [Date.getTime()] yields them. *)
Definition day_ms : Z := 86400000.

Record AppointmentSlot := {
  slotId : string;
  startTime : Z;
  isPriority : bool;
  available : bool
}.

(** A slot offered by the allocator, with the mark that tells a fallback
    slot (outside the tier's window) from a primary one. *)
Record OfferedSlot := {
  offered : AppointmentSlot;
  isFallback : bool
}.

(** Modelled from the spec: "URGENT -> slots within 2 days; MEDIUM ->
    within 5 days; STANDARD -> within 14 days". *)
Definition window_days (t : Tier) : Z :=
  match t with URGENT => 2 | MEDIUM => 5 | STANDARD => 14 end.

(** Modelled from the spec: the fallback extends "to the next tier's
    window"; STANDARD has no wider tier. *)
Definition fallback_window_days (t : Tier) : option Z :=
  match t with URGENT => Some 5 | MEDIUM => Some 14 | STANDARD => None end.

(** Modelled from the spec: "a configured minimum (e.g., 12)". *)
Definition min_slots : nat := 12.

(** Available and starting in [(now + lo days, now + hi days]]. *)
Definition in_range (now lo hi : Z) (s : AppointmentSlot) : bool :=
  available s && (now + lo * day_ms <? startTime s)
  && (startTime s <=? now + hi * day_ms).

Definition mark_priority (p : bool) (s : AppointmentSlot) : AppointmentSlot :=
  {| slotId := slotId s; startTime := startTime s; isPriority := p;
     available := available s |}.

Definition primary_offer (s : AppointmentSlot) : OfferedSlot :=
  {| offered := mark_priority true s; isFallback := false |}.

Definition fallback_offer (s : AppointmentSlot) : OfferedSlot :=
  {| offered := mark_priority false s; isFallback := true |}.

Definition offer_start (o : OfferedSlot) : Z := startTime (offered o).

Fixpoint insert_by_start (o : OfferedSlot) (l : list OfferedSlot) : list OfferedSlot :=
  match l with
  | [] => [o]
  | o' :: l' =>
      if offer_start o <=? offer_start o' then o :: o' :: l'
      else o' :: insert_by_start o l'
  end.

Fixpoint sort_by_start (l : list OfferedSlot) : list OfferedSlot :=
  match l with
  | [] => []
  | o :: l' => insert_by_start o (sort_by_start l')
  end.

Definition primary_slots (t : Tier) (now : Z) (pool : list AppointmentSlot)
    : list AppointmentSlot :=
  List.filter (in_range now 0 (window_days t)) pool.

Definition fallback_slots (t : Tier) (now : Z) (pool : list AppointmentSlot)
    : list AppointmentSlot :=
  if (length (primary_slots t now pool) <? min_slots)%nat then
    match fallback_window_days t with
    | Some fw => List.filter (in_range now (window_days t) fw) pool
    | None => []
    end
  else [].

(** Modelled from the spec: [allocateSlots(tier, now, pool)] (the agent's
    [get_appointment_slots]): filter to available future slots within the
    tier's window, mark them as priority, add fallback slots from the
    next window when the primary window holds fewer than [min_slots],
    sort ascending by [startTime]. *)
Definition allocateSlots (t : Tier) (now : Z) (pool : list AppointmentSlot)
    : list OfferedSlot :=
  sort_by_start (map primary_offer (primary_slots t now pool)
                 ++ map fallback_offer (fallback_slots t now pool)).

(** The order [allocateSlots] promises: by [startTime]. *)
Definition start_le (a b : OfferedSlot) : Prop := offer_start a <= offer_start b.

(* ===================================================================== *)
(** ** Booking confirmer                                                  *)
(* ===================================================================== *)

Inductive BookingStatus := scheduled | completed | cancelled | noshow.

Record Booking := {
  bookingId : nat;
  bookingUserId : string;
  bookingSlotId : string;
  contactPhone : string;
  urgencyScore : Z;
  category : string;
  caseNotes : string;
  status : BookingStatus
}.

Inductive BookingError := SlotUnavailable | InvalidContact.

#[global] Instance BookingError_eq_dec : EqDecision BookingError.
Proof. solve_decision. Defined.

Record BookingContext := {
  ctxUrgencyScore : Z;
  ctxCategory : string;
  ctxCaseNotes : string
}.

(** The shared slot pool and the booking record sink. *)
Record Store := {
  pool : list AppointmentSlot;
  bookings : list Booking
}.

Definition is_digit (c : ascii) : bool :=
  let n := nat_of_ascii c in ((48 <=? n) && (n <=? 57))%nat.

Definition strip_spaces (cs : list ascii) : list ascii :=
  List.filter (fun c => negb (Ascii.eqb c " "%char)) cs.

(** Modelled from the spec: the phone check of [book_appointment]
    ("Invalid phone format"); the spec fixes no format, this one accepts
    an optional leading [+] and 10 to 13 digits, spaces ignored. *)
Definition valid_phone (p : string) : bool :=
  let cs := strip_spaces (list_ascii_of_string p) in
  let ds := match cs with
            | c :: r => if Ascii.eqb c "+"%char then r else cs
            | [] => []
            end in
  forallb is_digit ds && (10 <=? length ds)%nat && (length ds <=? 13)%nat.

Definition find_slot (sid : string) (p : list AppointmentSlot)
    : option AppointmentSlot :=
  List.find (fun s => String.eqb (slotId s) sid) p.

Definition set_unavailable (sid : string) (p : list AppointmentSlot)
    : list AppointmentSlot :=
  map (fun s => if String.eqb (slotId s) sid then
                  {| slotId := slotId s; startTime := startTime s;
                     isPriority := isPriority s; available := false |}
                else s) p.

(** Modelled from the spec: [confirmBooking(slotId, userId, contact,
    context)] (the agent's [book_appointment]). The contact is validated
    first; the availability check and the flip are one conditional write
    on the store. Errors are returned as values and leave the store as it
    was. *)
Definition confirmBooking (sid uid phone : string) (ctx : BookingContext)
    (st : Store) : (Booking + BookingError) * Store :=
  if negb (valid_phone phone) then (inr InvalidContact, st)
  else
    match find_slot sid (pool st) with
    | Some s =>
        if available s then
          let b := {| bookingId := length (bookings st); bookingUserId := uid;
                      bookingSlotId := sid; contactPhone := phone;
                      urgencyScore := ctxUrgencyScore ctx;
                      category := ctxCategory ctx; caseNotes := ctxCaseNotes ctx;
                      status := scheduled |} in
          (inl b, {| pool := set_unavailable sid (pool st);
                     bookings := b :: bookings st |})
        else (inr SlotUnavailable, st)
    | None => (inr SlotUnavailable, st)
    end.

(** A request to [confirmBooking], as a client issues it. *)
Record Call := {
  c_slotId : string;
  c_userId : string;
  c_phone : string;
  c_ctx : BookingContext
}.

Definition run_call (c : Call) (st : Store) : (Booking + BookingError) * Store :=
  confirmBooking (c_slotId c) (c_userId c) (c_phone c) (c_ctx c) st.

Inductive Thread :=
  | Pending (c : Call)
  | Done (r : Booking + BookingError).

(** Two clients running [confirmBooking] concurrently against the shared
    store; each call is one atomic step, the scheduler picks either. *)
Definition Config : Type := Store * Thread * Thread.

Inductive step : Config -> Config -> Prop :=
  | step_left st st' c1 t2 r :
      run_call c1 st = (r, st') ->
      step (st, Pending c1, t2) (st', Done r, t2)
  | step_right st st' t1 c2 r :
      run_call c2 st = (r, st') ->
      step (st, t1, Pending c2) (st', t1, Done r).

Definition is_booking (r : Booking + BookingError) : bool :=
  match r with inl _ => true | inr _ => false end.

(** Exactly one call got a [Booking], the other [SlotUnavailable]. *)
Definition one_winner (r1 r2 : Booking + BookingError) : Prop :=
  (is_booking r1 = true /\ r2 = inr SlotUnavailable)
  \/ (r1 = inr SlotUnavailable /\ is_booking r2 = true).

(** Sample inputs used by the concrete runs below. *)
Definition race_ctx : BookingContext :=
  {| ctxUrgencyScore := 9; ctxCategory := "housing"; ctxCaseNotes := "eviction" |}.

Definition race_store : Store :=
  {| pool := [ {| slotId := "s1"; startTime := day_ms; isPriority := true;
                  available := true |} ];
     bookings := [] |}.

(* ===================================================================== *)
(** ** Appointment records behind the data API (Amplify schema)          *)
(* ===================================================================== *)

Module DataApi.

(** The [Appointment] model of the data schema. [owner] is the owner
    field that [allow.owner()] adds and fills with the creator's
    identity. *)
Record Appointment := {
  id : string;
  owner : string;
  userId : string;
  scheduledTime : Z;
  urgencyScore : Z;
  category : string;
  caseNotes : option string;
  status : option BookingStatus;
  phoneNumber : option string
}.

(** Operations of the generated data API on the Appointment table. *)
Inductive ApiOp :=
  | Create (caller : string) (a : Appointment)
  | Update (caller : string) (a : Appointment)
  | Delete (caller : string) (i : string)
  | Read (caller : string) (i : string).

Definition with_owner (o : string) (a : Appointment) : Appointment :=
  {| id := id a; owner := o; userId := userId a;
     scheduledTime := scheduledTime a; urgencyScore := urgencyScore a;
     category := category a; caseNotes := caseNotes a; status := status a;
     phoneNumber := phoneNumber a |}.

(** [.authorization((allow) => [allow.owner(),
       allow.authenticated().to(['read'])])]: the owner may create, read,
    update and delete; any other signed-in user may only read. A refused
    request leaves the table as it was. A create stores the caller as
    owner. An update carries the record as the client writes it,
    owner field included: with no field-level rule on [owner], the
    owner may hand the record to another user this way (an update that
    leaves the owner alone carries the old owner). *)
Definition exec (op : ApiOp) (t : gmap string Appointment)
    : gmap string Appointment :=
  match op with
  | Create caller a =>
      match t !! id a with
      | Some _ => t
      | None => <[id a := with_owner caller a]> t
      end
  | Update caller a =>
      match t !! id a with
      | Some old =>
          if String.eqb (owner old) caller
          then <[id a := a]> t else t
      | None => t
      end
  | Delete caller i =>
      match t !! i with
      | Some old => if String.eqb (owner old) caller then delete i t else t
      | None => t
      end
  | Read _ _ => t
  end.

Fixpoint exec_ops (ops : list ApiOp) (t : gmap string Appointment)
    : gmap string Appointment :=
  match ops with
  | [] => t
  | op :: ops' => exec_ops ops' (exec op t)
  end.

(** Whether a sequence of requests contains a delete of record [i]
    issued by the user who owns it when the delete runs. *)
Fixpoint owner_deletes (i : string) (ops : list ApiOp)
    (t : gmap string Appointment) : bool :=
  match ops with
  | [] => false
  | op :: ops' =>
      match op, t !! i with
      | Delete c j, Some a => String.eqb j i && String.eqb c (owner a)
      | _, _ => false
      end
      || owner_deletes i ops' (exec op t)
  end.

(** A sample booking record, for the concrete runs below. *)
Definition sample_appt : Appointment := {|
  id := "b1"; owner := "alice"; userId := "u1"; scheduledTime := 86400000;
  urgencyScore := 9; category := "housing"; caseNotes := None;
  status := Some scheduled; phoneNumber := Some "07700900123" |}.

End DataApi.

(* ===================================================================== *)
(** ** Deadline reminders (notifications handler, [checkDeadlines])      *)
(* ===================================================================== *)

Module Notifications.

(** An item of the deadlines table; the table is keyed by [id], so the
    id is the map key and not repeated here. A [dueDate] that
    [new Date(...)] cannot parse is [None] (an invalid date, which
    compares false with everything). Optional attributes are options. *)
Record Deadline := {
  userId : string;
  title : string;
  dueDate : option Z;
  completed : option bool;
  reminderSent : option bool
}.

(** [x <> :true] in a DynamoDB filter expression; [ne_absent] is its
    value when the attribute is absent from the item. *)
Definition attr_ne_true (ne_absent : bool) (x : option bool) : bool :=
  match x with
  | None => ne_absent
  | Some b => negb b
  end.

(** [completed <> :true AND (attribute_not_exists(reminderSent)
       OR reminderSent <> :true)] *)
Definition scan_filter (ne_absent : bool) (d : Deadline) : bool :=
  attr_ne_true ne_absent (completed d)
  && (match reminderSent d with None => true | Some _ => false end
      || attr_ne_true ne_absent (reminderSent d)).

(** One page of a [ScanCommand]: the service evaluates the first [page]
    items of the table, then applies the filter. *)
Definition scan (ne_absent : bool) (page : nat) (t : gmap string Deadline)
    : list (string * Deadline) :=
  List.filter (fun kd => scan_filter ne_absent (snd kd))
              (firstn page (map_to_list t)).

(** [getUserEmail]: [result.Items?.[0]?.email || null]; [profiles]
    gives the email attribute of the first matching profile, if any. *)
Definition getUserEmail (profiles : string -> option string) (uid : string)
    : option string :=
  match profiles uid with
  | Some e => if String.eqb e "" then None else Some e
  | None => None
  end.

Definition three_days_ms : Z := 3 * 24 * 60 * 60 * 1000.

(** [dueDate <= threeDaysFromNow && dueDate >= now] *)
Definition due_in_window (now : Z) (d : Deadline) : bool :=
  match dueDate d with
  | Some due => (due <=? now + three_days_ms) && (now <=? due)
  | None => false
  end.

Definition mark_sent (d : Deadline) : Deadline :=
  {| userId := userId d; title := title d; dueDate := dueDate d;
     completed := completed d; reminderSent := Some true |}.

(** An email sent by [sendEmail]: the deadline it is about and the
    address. *)
Record Sent := {
  sent_id : string;
  sent_to : string
}.

(** The [for] loop of [checkDeadlines] over the scanned items: send the
    reminder, then [UpdateCommand ... SET reminderSent = :true]. *)
Fixpoint process (now : Z) (profiles : string -> option string)
    (items : list (string * Deadline)) (t : gmap string Deadline)
    : gmap string Deadline * list Sent :=
  match items with
  | [] => (t, [])
  | (k, d) :: rest =>
      if due_in_window now d then
        match getUserEmail profiles (userId d) with
        | Some e =>
            let '(t', log) := process now profiles rest (alter mark_sent k t) in
            (t', {| sent_id := k; sent_to := e |} :: log)
        | None => process now profiles rest t
        end
      else process now profiles rest t
  end.

Definition checkDeadlines (ne_absent : bool) (now : Z) (page : nat)
    (profiles : string -> option string) (t : gmap string Deadline)
    : gmap string Deadline * list Sent :=
  process now profiles (scan ne_absent page t) t.

(** The environment of one scheduled run: the clock, the scan page and
    the user profiles table at that time. *)
Record RunEnv := {
  run_now : Z;
  run_page : nat;
  run_profiles : string -> option string
}.

(** Successive scheduled runs (daily, each finishing within its
    five-minute timeout, so they do not overlap). *)
Fixpoint runs (ne_absent : bool) (envs : list RunEnv) (t : gmap string Deadline)
    : gmap string Deadline * list Sent :=
  match envs with
  | [] => (t, [])
  | e :: es =>
      let '(t1, l1) := checkDeadlines ne_absent (run_now e) (run_page e)
                                      (run_profiles e) t in
      let '(t2, l2) := runs ne_absent es t1 in
      (t2, l1 ++ l2)
  end.

Definition rs_true (t : gmap string Deadline) (k : string) : Prop :=
  exists d, t !! k = Some d /\ reminderSent d = Some true.

End Notifications.

(* ===================================================================== *)
(** ** Further display and notification code                             *)
(* ===================================================================== *)

(** [Math.ceil(x / d)] for an integer [x] and a positive integer [d]. *)
Definition ceil_div (x d : Z) : Z := - ((- x) / d).

(** AppointmentBooking.tsx: [const urgencyColor = urgencyScore >= 8 ?
    '#F87171' : urgencyScore >= 5 ? '#FBBF24' : '#60A5FA'] *)
Definition urgencyColor (urgencyScore : Z) : string :=
  if 8 <=? urgencyScore then "#F87171"
  else if 5 <=? urgencyScore then "#FBBF24"
  else "#60A5FA".

(** The strings [getDaysUntil] returns; [InDays n] is the template
    [`${days} days`] at a number, [InDaysNaN] the same template when the
    date does not parse ("NaN days"). *)
Inductive DaysLabel := Overdue | Today | Tomorrow | InDays (n : Z) | InDaysNaN.

(** Dashboard.tsx [getDaysUntil]: [days = Math.ceil((new Date(iso).getTime()
    - Date.now()) / (1000 * 60 * 60 * 24))], then [days < 0], [days === 0]
    and [days === 1] in turn. [due] is [None] when the date does not
    parse (NaN fails every comparison). *)
Definition getDaysUntil (due : option Z) (now : Z) : DaysLabel :=
  match due with
  | None => InDaysNaN
  | Some t =>
      let days := ceil_div (t - now) day_ms in
      if days <? 0 then Overdue
      else if days =? 0 then Today
      else if days =? 1 then Tomorrow
      else InDays days
  end.

(** Dashboard.tsx: the countdown gets the [urgent] class when
    [getDaysUntil(...) === 'Today' || getDaysUntil(...) === 'Overdue']. *)
Definition countdown_urgent (due : option Z) (now : Z) : bool :=
  match getDaysUntil due now with
  | Today | Overdue => true
  | _ => false
  end.

(** BookingSlots.tsx: a slot as the agent sends it. *)
Record BookingSlot := {
  bs_slot_id : string;
  bs_datetime : string;
  bs_display : string;
  bs_date : string;
  bs_time : string
}.

(** The names an empty object literal [{}] inherits from
    [Object.prototype]; [acc[k]] is truthy for each of them (a function,
    or [Object.prototype] itself for [__proto__]). *)
Definition proto_members : list string :=
  ["constructor"; "__proto__"; "__defineGetter__"; "__defineSetter__";
   "__lookupGetter__"; "__lookupSetter__"; "hasOwnProperty"; "isPrototypeOf";
   "propertyIsEnumerable"; "toLocaleString"; "toString"; "valueOf"].

Definition proto_member (k : string) : bool := existsb (String.eqb k) proto_members.

(** One step of [slots.reduce((acc, slot) => { if (!acc[slot.date])
    acc[slot.date] = []; acc[slot.date].push(slot); return acc }, {})]:
    the object's own keys are an association list in insertion order.
    An own key gets the slot appended. A date naming an inherited member
    skips the initialisation ([acc[date]] is truthy) and
    [acc[date].push] is not a function: the reduce throws a
    [TypeError] ([None]). Any other date starts a new group. *)
Fixpoint push_slot (date : string) (s : BookingSlot)
    (acc : list (string * list BookingSlot)) : option (list (string * list BookingSlot)) :=
  match acc with
  | [] => if proto_member date then None else Some [(date, [s])]
  | (d, l) :: rest =>
      if String.eqb d date then Some ((d, l ++ [s]) :: rest)
      else match push_slot date s rest with
           | Some r => Some ((d, l) :: r)
           | None => None
           end
  end.

(** [slotsByDate]; [None] when the reduce throws (BookingSlots then
    fails to render). *)
Definition slotsByDate (slots : list BookingSlot)
    : option (list (string * list BookingSlot)) :=
  fold_left (fun acc s => match acc with
                          | Some a => push_slot (bs_date s) s a
                          | None => None
                          end) slots (Some []).

(** [acc[date]] on the association list. *)
Fixpoint group_of (date : string) (acc : list (string * list BookingSlot))
    : option (list BookingSlot) :=
  match acc with
  | [] => None
  | (d, l) :: rest => if String.eqb d date then Some l else group_of date rest
  end.

(** AdvisorDashboard.tsx: the [Case] model as the dashboard reads it. *)
Module Advisor.

Inductive UrgencyLevel := CRISIS | URGENT | STANDARD | GENERAL.
Inductive CaseStatus := PENDING | IN_PROGRESS | RESOLVED | CLOSED.

#[global] Instance UrgencyLevel_eq_dec : EqDecision UrgencyLevel.
Proof. solve_decision. Defined.
#[global] Instance CaseStatus_eq_dec : EqDecision CaseStatus.
Proof. solve_decision. Defined.

Record Case := {
  caseId : string;
  urgencyLevel : UrgencyLevel;
  status : CaseStatus;
  advisorNotes : option string;
  lastUpdated : option Z
}.

Definition level_name (l : UrgencyLevel) : string :=
  match l with
  | CRISIS => "CRISIS" | URGENT => "URGENT"
  | STANDARD => "STANDARD" | GENERAL => "GENERAL"
  end.

(** [const priorityOrder = { CRISIS: 1, URGENT: 2, STANDARD: 3, GENERAL: 4 }] *)
Definition priorityOrder (l : UrgencyLevel) : Z :=
  match l with CRISIS => 1 | URGENT => 2 | STANDARD => 3 | GENERAL => 4 end.

(** [filter === 'ALL' || c.urgencyLevel === filter] *)
Definition admits (filter : string) (c : Case) : bool :=
  String.eqb filter "ALL" || String.eqb (level_name (urgencyLevel c)) filter.

(** [Array.prototype.sort] is stable, and a stable sort by a key has one
    result; this insertion sort is stable (an element goes before the
    equal-ranked elements that followed it in the input). *)
Fixpoint insert_by_priority (c : Case) (l : list Case) : list Case :=
  match l with
  | [] => [c]
  | c' :: l' =>
      if priorityOrder (urgencyLevel c) - priorityOrder (urgencyLevel c') <=? 0
      then c :: c' :: l'
      else c' :: insert_by_priority c l'
  end.

Fixpoint sort_by_priority (l : list Case) : list Case :=
  match l with
  | [] => []
  | c :: l' => insert_by_priority c (sort_by_priority l')
  end.

(** [const filteredCases = cases.filter(...).sort(...)] *)
Definition filteredCases (filter : string) (cases : list Case) : list Case :=
  sort_by_priority (List.filter (admits filter) cases).

Definition count_level (l : UrgencyLevel) (cases : list Case) : nat :=
  length (List.filter (fun c => bool_decide (urgencyLevel c = l)) cases).

(** [stats]: total, crisis, urgent and pending counts. *)
Record Stats := { total : nat; crisis : nat; urgent : nat; pending : nat }.

Definition stats (cases : list Case) : Stats :=
  {| total := length cases;
     crisis := count_level CRISIS cases;
     urgent := count_level URGENT cases;
     pending := length (List.filter (fun c => bool_decide (status c = PENDING)) cases) |}.

(** The buttons of a case card and the notes modal. *)
Inductive Click := StartWorking | MarkResolved | SaveNotes (notes : string).

(** [{c.status === 'PENDING' && <button ...>Start Working}],
    [{c.status === 'IN_PROGRESS' && <button ...>Mark Resolved}]; Add
    Notes is always shown. [view] is the case as last fetched. *)
Definition shown (view : Case) (k : Click) : bool :=
  match k with
  | StartWorking => bool_decide (status view = PENDING)
  | MarkResolved => bool_decide (status view = IN_PROGRESS)
  | SaveNotes _ => true
  end.

(** [client.models.Case.update({ caseId, status | advisorNotes,
    lastUpdated })]: an unconditional write of the given fields to the
    stored case; a missing case makes the update fail (no change). *)
Definition apply_click (k : Click) (now : Z) (c : Case) : Case :=
  match k with
  | StartWorking =>
      {| caseId := caseId c; urgencyLevel := urgencyLevel c; status := IN_PROGRESS;
         advisorNotes := advisorNotes c; lastUpdated := Some now |}
  | MarkResolved =>
      {| caseId := caseId c; urgencyLevel := urgencyLevel c; status := RESOLVED;
         advisorNotes := advisorNotes c; lastUpdated := Some now |}
  | SaveNotes n =>
      {| caseId := caseId c; urgencyLevel := urgencyLevel c; status := status c;
         advisorNotes := Some n; lastUpdated := Some now |}
  end.

Definition click (view : Case) (k : Click) (now : Z) (db : gmap string Case)
    : gmap string Case :=
  if shown view k then
    match db !! caseId view with
    | Some stored => <[caseId view := apply_click k now stored]> db
    | None => db
    end
  else db.

(** A session of clicks, each on a card as it was last fetched (the
    card may be stale), applied in order. *)
Fixpoint click_seq (clicks : list (Case * Click * Z)) (db : gmap string Case)
    : gmap string Case :=
  match clicks with
  | [] => db
  | (view, k, now) :: rest => click_seq rest (click view k now db)
  end.

Definition next_status (s : CaseStatus) : CaseStatus :=
  match s with
  | PENDING => IN_PROGRESS
  | IN_PROGRESS => RESOLVED
  | s' => s'
  end.

End Advisor.

(** The signed-in identity issuing a data-API request. *)
Definition api_caller (op : DataApi.ApiOp) : string :=
  match op with
  | DataApi.Create c _ | DataApi.Update c _ | DataApi.Delete c _
  | DataApi.Read c _ => c
  end.

(** notifications handler: [checkAppointmentFollowups]. *)
Module Followups.
Import Notifications.

(** The [Appointment] interface of the handler; the table is keyed by
    [id]. [scheduledTime] is [None] when it does not parse. *)
Record FAppointment := {
  fa_userId : string;
  fa_bureauName : option string;
  fa_scheduledTime : option Z;
  fa_category : string;
  fa_status : option string
}.

(** [#status = :completed] (false when the attribute is absent). *)
Definition followup_filter (a : FAppointment) : bool :=
  match fa_status a with
  | Some s => String.eqb s "completed"
  | None => false
  end.

Definition followup_scan (page : nat) (t : gmap string FAppointment)
    : list (string * FAppointment) :=
  List.filter (fun ka => followup_filter (snd ka)) (firstn page (map_to_list t)).

(** [appointmentTime <= now && appointmentTime >= oneDayAgo] *)
Definition in_followup_window (now : Z) (a : FAppointment) : bool :=
  match fa_scheduledTime a with
  | Some at_ => (at_ <=? now) && (now - day_ms <=? at_)
  | None => false
  end.

(** The loop of [checkAppointmentFollowups]: one email per item in the
    window whose user has an email; nothing is written back. *)
Fixpoint followups (now : Z) (profiles : string -> option string)
    (items : list (string * FAppointment)) : list Sent :=
  match items with
  | [] => []
  | (k, a) :: rest =>
      if in_followup_window now a then
        match getUserEmail profiles (fa_userId a) with
        | Some e => {| sent_id := k; sent_to := e |} :: followups now profiles rest
        | None => followups now profiles rest
        end
      else followups now profiles rest
  end.

Definition checkAppointmentFollowups (now : Z) (page : nat)
    (profiles : string -> option string) (t : gmap string FAppointment)
    : list Sent :=
  followups now profiles (followup_scan page t).

(** [Math.ceil((dueDate.getTime() - now.getTime()) / (24*60*60*1000))],
    the day count in the reminder subject of [checkDeadlines]. *)
Definition reminder_days (now due : Z) : Z := ceil_div (due - now) day_ms.

End Followups.

(* ===================================================================== *)
(** * Properties                                                         *)
(* ===================================================================== *)

Example urgencyLabel_7 : urgencyLabel 7 = "Medium Priority".
Proof. reflexivity. Qed.

Example assess_eviction_14_days :
  assessUrgency default_weights
    {| daysUntilDeadline := Some 14; severityFlags := [EvictionNotice];
       vulnerabilityFlags := [] |} = {| score := 6; tier := MEDIUM |}.
Proof. reflexivity. Qed.

Example default_weights_ok : weights_ok default_weights = true.
Proof. reflexivity. Qed.

(** Unpacks [weights_ok] into linear facts. *)
Ltac weights_facts H :=
  unfold weights_ok in H;
  repeat rewrite Bool.andb_true_iff in H;
  repeat rewrite Z.leb_le in H;
  destruct_and? H.

Lemma deadline_contribution_antimono (w : Weights) (d1 d2 : Z) :
  weights_ok w = true -> d1 <= d2 ->
  deadline_contribution w (Some d2) <= deadline_contribution w (Some d1).
Proof.
  intros Hw Hle. weights_facts Hw. unfold deadline_contribution.
  repeat match goal with
         | |- context [Z.leb ?a ?b] => destruct (Z.leb_spec a b)
         end; lia.
Qed.

(** C1: for a score in [1,10], the UI label ([urgencyLabel] in
    AppointmentBooking.tsx), the dashboard badge and the scorer's tier
    are STANDARD/low for 1-4, MEDIUM/medium for 5-7 and URGENT/high for
    8-10; in particular 7 is MEDIUM, never URGENT. *)
Theorem urgency_tier_thresholds (s : Z) (Hs : 1 <= s <= 10) :
  (s <= 4 -> urgencyLabel s = "Standard" /\ urgencyBadge s = "low"
             /\ tier_of_score s = STANDARD)
  /\ (5 <= s <= 7 -> urgencyLabel s = "Medium Priority"
             /\ urgencyBadge s = "medium" /\ tier_of_score s = MEDIUM)
  /\ (8 <= s -> urgencyLabel s = "URGENT" /\ urgencyBadge s = "high"
             /\ tier_of_score s = URGENT).
Proof.
  unfold urgencyLabel, urgencyBadge, tier_of_score.
  repeat split; intros;
    repeat match goal with
           | |- context [Z.leb ?a ?b] => destruct (Z.leb_spec a b)
           end; first [reflexivity | lia].
Qed.

Lemma urgency_tier_thresholds_witness :
  1 <= 7 <= 10 /\
  ((7 <= 4 -> urgencyLabel 7 = "Standard" /\ urgencyBadge 7 = "low"
              /\ tier_of_score 7 = STANDARD)
   /\ (5 <= 7 <= 7 -> urgencyLabel 7 = "Medium Priority"
              /\ urgencyBadge 7 = "medium" /\ tier_of_score 7 = MEDIUM)
   /\ (8 <= 7 -> urgencyLabel 7 = "URGENT" /\ urgencyBadge 7 = "high"
              /\ tier_of_score 7 = URGENT)).
Proof. split; [lia | apply (urgency_tier_thresholds 7); lia]. Defined.

(** C2: for every weight table and every [CaseSignals], however many
    flags and whatever the deadline, [assessUrgency] returns
    [min(10, max(1, base + deadline + severity + vulnerability))], an
    integer in [1,10]. *)
Theorem assessUrgency_score_clamped (w : Weights) (s : CaseSignals) :
  score (assessUrgency w s)
    = Z.min 10 (Z.max 1 (base_score + deadline_contribution w (daysUntilDeadline s)
                         + severity_contribution w (severityFlags s)
                         + vulnerability_contribution w (vulnerabilityFlags s)))
  /\ 1 <= score (assessUrgency w s) <= 10.
Proof. unfold assessUrgency; cbn. split; [reflexivity | lia]. Qed.

(** C3: with the flags fixed, a closer deadline never yields a lower
    score (for any weight table meeting the spec's constraints). *)
Theorem assessUrgency_monotone_deadline (w : Weights)
    (sev : list SeverityFlag) (vul : list VulnerabilityFlag) (d1 d2 : Z)
    (Hw : weights_ok w = true) (Hlt : d1 < d2) :
  score (assessUrgency w {| daysUntilDeadline := Some d2; severityFlags := sev;
                            vulnerabilityFlags := vul |})
  <= score (assessUrgency w {| daysUntilDeadline := Some d1; severityFlags := sev;
                               vulnerabilityFlags := vul |}).
Proof.
  unfold assessUrgency; cbn -[deadline_contribution severity_contribution vulnerability_contribution].
  pose proof (deadline_contribution_antimono w d1 d2 Hw ltac:(lia)). lia.
Qed.

Lemma assessUrgency_monotone_deadline_witness :
  weights_ok default_weights = true /\ 1 < 9 /\
  score (assessUrgency default_weights
           {| daysUntilDeadline := Some 9; severityFlags := [CourtSummons];
              vulnerabilityFlags := [Elderly] |})
  <= score (assessUrgency default_weights
              {| daysUntilDeadline := Some 1; severityFlags := [CourtSummons];
                 vulnerabilityFlags := [Elderly] |}).
Proof.
  split; [reflexivity | split; [lia |]].
  apply (assessUrgency_monotone_deadline default_weights); [reflexivity | lia].
Defined.

(** C4: with no deadline and no flags, [assessUrgency] returns score 1
    and tier STANDARD (a value, never an error), whatever the weights. *)
Theorem assessUrgency_empty (w : Weights) :
  assessUrgency w {| daysUntilDeadline := None; severityFlags := [];
                     vulnerabilityFlags := [] |}
  = {| score := 1; tier := STANDARD |}.
Proof.
  unfold assessUrgency.
  assert (Hsc : Z.min 10 (Z.max 1 (base_score + deadline_contribution w None
                  + severity_contribution w [] + vulnerability_contribution w [])) = 1).
  { unfold base_score, severity_contribution, vulnerability_contribution; cbn. lia. }
  cbn [daysUntilDeadline severityFlags vulnerabilityFlags]. rewrite Hsc. reflexivity.
Qed.

(** ** Allocator *)

Lemma in_insert_by_start (x o : OfferedSlot) (l : list OfferedSlot) :
  In o (insert_by_start x l) <-> o = x \/ In o l.
Proof.
  induction l as [| y l IH]; cbn; [naive_solver |].
  destruct (offer_start x <=? offer_start y); cbn; [naive_solver |].
  rewrite IH. naive_solver.
Qed.

Lemma in_sort_by_start (o : OfferedSlot) (l : list OfferedSlot) :
  In o (sort_by_start l) <-> In o l.
Proof.
  induction l as [| x l IH]; cbn; [tauto |].
  rewrite in_insert_by_start, IH. naive_solver.
Qed.

Lemma insert_by_start_sorted (x : OfferedSlot) (l : list OfferedSlot) :
  Sorted start_le l -> Sorted start_le (insert_by_start x l).
Proof.
  induction l as [| y l IH]; intros Hs; cbn; [auto |].
  destruct (Z.leb_spec (offer_start x) (offer_start y)) as [Hxy | Hxy].
  - constructor; [exact Hs | constructor; unfold start_le; lia].
  - apply Sorted_inv in Hs as [Hl Hhd]. constructor; [exact (IH Hl) |].
    destruct l as [| z l]; cbn.
    + constructor. unfold start_le. lia.
    + inversion Hhd; subst.
      destruct (offer_start x <=? offer_start z); constructor;
        unfold start_le in *; lia.
Qed.

Lemma sort_by_start_sorted (l : list OfferedSlot) : Sorted start_le (sort_by_start l).
Proof.
  induction l as [| x l IH]; cbn; [constructor |].
  by apply insert_by_start_sorted.
Qed.

Lemma in_range_spec (now lo hi : Z) (s : AppointmentSlot) :
  in_range now lo hi s = true <->
  available s = true /\ now + lo * day_ms < startTime s <= now + hi * day_ms.
Proof.
  unfold in_range. rewrite !Bool.andb_true_iff, Z.ltb_lt, Z.leb_le. tauto.
Qed.

Lemma in_allocateSlots (t : Tier) (now : Z) (pool : list AppointmentSlot)
    (o : OfferedSlot) :
  In o (allocateSlots t now pool) ->
  (exists s, o = primary_offer s /\ In s pool
             /\ in_range now 0 (window_days t) s = true)
  \/ (exists s fw, o = fallback_offer s /\ In s pool
             /\ (length (primary_slots t now pool) < min_slots)%nat
             /\ fallback_window_days t = Some fw
             /\ in_range now (window_days t) fw s = true).
Proof.
  unfold allocateSlots. rewrite in_sort_by_start, in_app_iff, !in_map_iff.
  intros [[s [<- Hs]] | [s [<- Hs]]].
  - left. unfold primary_slots in Hs. apply filter_In in Hs as [Hin Hr]. eauto.
  - right. unfold fallback_slots in Hs.
    destruct (Nat.ltb_spec (length (primary_slots t now pool)) min_slots);
      [| contradiction].
    destruct (fallback_window_days t) as [fw |]; [| contradiction].
    apply filter_In in Hs as [Hin Hr]. eauto 7.
Qed.

(** ** Booking confirmer *)

Lemma find_slot_set_unavailable (sid : string) (p : list AppointmentSlot)
    (s : AppointmentSlot) :
  find_slot sid p = Some s ->
  exists s', find_slot sid (set_unavailable sid p) = Some s'
             /\ available s' = false.
Proof.
  induction p as [| x p IH]; cbn; [discriminate |].
  destruct (String.eqb (slotId x) sid) eqn:E; cbn.
  - intros _. rewrite E. eauto.
  - rewrite E. exact IH.
Qed.

Lemma confirmBooking_invalid (sid uid phone : string) (ctx : BookingContext)
    (st : Store) :
  valid_phone phone = false ->
  confirmBooking sid uid phone ctx st = (inr InvalidContact, st).
Proof. intros H. unfold confirmBooking. by rewrite H. Qed.

Lemma confirmBooking_available (sid uid phone : string) (ctx : BookingContext)
    (st : Store) (s : AppointmentSlot) :
  valid_phone phone = true -> find_slot sid (pool st) = Some s ->
  available s = true ->
  exists b, confirmBooking sid uid phone ctx st
            = (inl b, {| pool := set_unavailable sid (pool st);
                         bookings := b :: bookings st |}).
Proof.
  intros Hp Hf Ha. unfold confirmBooking. rewrite Hp, Hf, Ha. cbn. eauto.
Qed.

Lemma confirmBooking_taken (sid uid phone : string) (ctx : BookingContext)
    (st : Store) (s : AppointmentSlot) :
  valid_phone phone = true -> find_slot sid (pool st) = Some s ->
  available s = false ->
  confirmBooking sid uid phone ctx st = (inr SlotUnavailable, st).
Proof. intros Hp Hf Ha. unfold confirmBooking. by rewrite Hp, Hf, Ha. Qed.

Lemma rtc_step_done (st st' : Store) (r1 r2 r1' r2' : Booking + BookingError) :
  rtc step (st, Done r1, Done r2) (st', Done r1', Done r2') ->
  st = st' /\ r1 = r1' /\ r2 = r2'.
Proof.
  intros H. apply rtc_inv in H as [H | [y [Hs _]]].
  - by simplify_eq.
  - inversion Hs.
Qed.

Lemma rtc_step_left_done (st st' : Store) (r1 r1' r2' : Booking + BookingError)
    (c2 : Call) :
  rtc step (st, Done r1, Pending c2) (st', Done r1', Done r2') ->
  r1' = r1 /\ run_call c2 st = (r2', st').
Proof.
  intros H. apply rtc_inv in H as [H | [y [Hs Hr]]]; [discriminate |].
  inversion Hs; subst.
  apply rtc_step_done in Hr as (-> & -> & ->). auto.
Qed.

Lemma rtc_step_right_done (st st' : Store) (r2 r1' r2' : Booking + BookingError)
    (c1 : Call) :
  rtc step (st, Pending c1, Done r2) (st', Done r1', Done r2') ->
  r2' = r2 /\ run_call c1 st = (r1', st').
Proof.
  intros H. apply rtc_inv in H as [H | [y [Hs Hr]]]; [discriminate |].
  inversion Hs; subst.
  apply rtc_step_done in Hr as (-> & -> & ->). auto.
Qed.

Lemma race_orders (st st' : Store) (c1 c2 : Call) (r1 r2 : Booking + BookingError) :
  rtc step (st, Pending c1, Pending c2) (st', Done r1, Done r2) ->
  (exists st1, run_call c1 st = (r1, st1) /\ run_call c2 st1 = (r2, st'))
  \/ (exists st2, run_call c2 st = (r2, st2) /\ run_call c1 st2 = (r1, st')).
Proof.
  intros Hrun. apply rtc_inv in Hrun as [H | [y [Hs Hr]]]; [discriminate |].
  inversion Hs as [? st1 ? ? r Hc1 | ? st1 ? ? r Hc2]; subst.
  - apply rtc_step_left_done in Hr as [-> Hc2]. left. eauto.
  - apply rtc_step_right_done in Hr as [-> Hc1]. right. eauto.
Qed.

(** What one call does, by its phone and the availability it finds. *)
Lemma call_outcome (c : Call) (st st1 : Store) (s : AppointmentSlot)
    (r : Booking + BookingError) :
  find_slot (c_slotId c) (pool st) = Some s -> run_call c st = (r, st1) ->
  (valid_phone (c_phone c) = false -> r = inr InvalidContact /\ st1 = st)
  /\ (valid_phone (c_phone c) = true -> available s = true ->
      is_booking r = true
      /\ exists s', find_slot (c_slotId c) (pool st1) = Some s' /\ available s' = false)
  /\ (valid_phone (c_phone c) = true -> available s = false ->
      r = inr SlotUnavailable /\ st1 = st).
Proof.
  intros Hf Hr. unfold run_call in Hr. split; [| split].
  - intros Hv. rewrite confirmBooking_invalid in Hr by exact Hv.
    injection Hr as <- <-. auto.
  - intros Hv Ha.
    destruct (confirmBooking_available (c_slotId c) (c_userId c) (c_phone c) (c_ctx c)
                st s Hv Hf Ha) as [b Hb].
    rewrite Hb in Hr. injection Hr as <- <-. split; [reflexivity |].
    exact (find_slot_set_unavailable _ _ _ Hf).
  - intros Hv Ha. rewrite (confirmBooking_taken _ _ _ _ st s Hv Hf Ha) in Hr.
    injection Hr as <- <-. auto.
Qed.

(** The store effect of one call: a write conditional on the phone and
    on the availability the call itself reads. *)
Lemma run_call_conditional_write (c : Call) (st0 : Store) :
  pool (snd (run_call c st0)) =
  if valid_phone (c_phone c)
     && match find_slot (c_slotId c) (pool st0) with
        | Some s0 => available s0 | None => false end
  then set_unavailable (c_slotId c) (pool st0) else pool st0.
Proof.
  unfold run_call, confirmBooking.
  destruct (valid_phone (c_phone c)); cbn; [| reflexivity].
  destruct (find_slot (c_slotId c) (pool st0)) as [s0 |]; [| reflexivity].
  destruct (available s0); reflexivity.
Qed.

Example allocate_urgent_thin_pool :
  map (fun o => (slotId (offered o), isPriority (offered o), isFallback o))
    (allocateSlots URGENT 0
       [ {| slotId := "d4"; startTime := 4 * day_ms; isPriority := false; available := true |};
         {| slotId := "d1"; startTime := day_ms; isPriority := false; available := true |};
         {| slotId := "d9"; startTime := 9 * day_ms; isPriority := false; available := true |};
         {| slotId := "x1"; startTime := day_ms + 1; isPriority := true; available := false |} ])
  = [("d1", true, false); ("d4", false, true)].
Proof. reflexivity. Qed.

(** C6: every slot that [allocateSlots URGENT now pool] returns is either
    a primary slot, marked as such (not fallback, priority), starting at
    most 2 days after [now]; or a fallback slot, marked as such (fallback,
    not priority), offered only because the 2-day window held fewer than
    [min_slots] slots, and starting more than 2 days after [now]. *)
Theorem allocateSlots_urgent_window (now : Z) (pool : list AppointmentSlot)
    (o : OfferedSlot) (Hin : In o (allocateSlots URGENT now pool)) :
  isPriority (offered o) = negb (isFallback o)
  /\ (isFallback o = false -> now < offer_start o <= now + 2 * day_ms)
  /\ (isFallback o = true ->
        (length (primary_slots URGENT now pool) < min_slots)%nat
        /\ now + 2 * day_ms < offer_start o).
Proof.
  apply in_allocateSlots in Hin as
      [(s & -> & _ & Hr) | (s & fw & -> & _ & Hlen & Hfw & Hr)];
    apply in_range_spec in Hr; cbn in *; unfold offer_start; cbn.
  - split; [reflexivity |]. split; [lia | discriminate].
  - split; [reflexivity |]. split; [discriminate | lia].
Qed.

Lemma allocateSlots_urgent_window_witness :
  let pool := [ {| slotId := "d4"; startTime := 4 * day_ms; isPriority := false; available := true |};
                {| slotId := "d1"; startTime := day_ms; isPriority := false; available := true |} ] in
  let o := {| offered := {| slotId := "d4"; startTime := 4 * day_ms; isPriority := false;
                            available := true |}; isFallback := true |} in
  In o (allocateSlots URGENT 0 pool) /\
  (isPriority (offered o) = negb (isFallback o)
   /\ (isFallback o = false -> 0 < offer_start o <= 0 + 2 * day_ms)
   /\ (isFallback o = true ->
         (length (primary_slots URGENT 0 pool) < min_slots)%nat
         /\ 0 + 2 * day_ms < offer_start o)).
Proof.
  intros pool o. assert (H : In o (allocateSlots URGENT 0 pool)).
  { vm_compute. right. left. reflexivity. }
  split; [exact H | exact (allocateSlots_urgent_window 0 pool o H)].
Defined.

(** C7: for every tier, time and pool, the slots [allocateSlots] returns
    are in non-decreasing [startTime] order: any slot placed before
    another (priority or not) starts no later than it. *)
Theorem allocateSlots_sorted (t : Tier) (now : Z) (pool : list AppointmentSlot) :
  StronglySorted start_le (allocateSlots t now pool).
Proof.
  apply Sorted_StronglySorted.
  - intros a b c; unfold start_le; lia.
  - apply sort_by_start_sorted.
Qed.

(** C8: a [confirmBooking] call whose phone is malformed (such as
    "abc") returns [InvalidContact] and leaves the store, hence the
    slot's availability, unchanged. *)
Theorem confirmBooking_malformed_phone (sid uid phone : string)
    (ctx : BookingContext) (st : Store) (Hphone : valid_phone phone = false) :
  fst (confirmBooking sid uid phone ctx st) = inr InvalidContact
  /\ pool (snd (confirmBooking sid uid phone ctx st)) = pool st
  /\ snd (confirmBooking sid uid phone ctx st) = st.
Proof. rewrite confirmBooking_invalid by exact Hphone. auto. Qed.

Lemma confirmBooking_malformed_phone_witness :
  let st := {| pool := [ {| slotId := "s1"; startTime := day_ms; isPriority := true;
                            available := true |} ]; bookings := [] |} in
  let ctx := {| ctxUrgencyScore := 9; ctxCategory := "housing"; ctxCaseNotes := "" |} in
  valid_phone "abc" = false /\
  (fst (confirmBooking "s1" "u1" "abc" ctx st) = inr InvalidContact
   /\ pool (snd (confirmBooking "s1" "u1" "abc" ctx st)) = pool st
   /\ snd (confirmBooking "s1" "u1" "abc" ctx st) = st).
Proof.
  intros st ctx. split; [reflexivity |].
  apply confirmBooking_malformed_phone. reflexivity.
Defined.

(** C5 (as amended): two concurrent [confirmBooking] calls for the same
    available slot, each one atomic step whose store effect is a write
    conditional on the phone and on the slot's current availability.
    Whichever runs first: with two well-formed phones, exactly one call
    gets a [Booking] and the other [SlotUnavailable], and the slot is
    then unavailable; a call with a malformed phone returns
    [InvalidContact] and takes nothing, so the other call, if its phone
    is well-formed, gets the [Booking]; with two malformed phones the
    store is unchanged. *)
Theorem confirmBooking_race_one_winner (st st' : Store) (c1 c2 : Call)
    (s : AppointmentSlot) (r1 r2 : Booking + BookingError)
    (Hsid : c_slotId c2 = c_slotId c1)
    (Hfind : find_slot (c_slotId c1) (pool st) = Some s)
    (Hav : available s = true)
    (Hrun : rtc step (st, Pending c1, Pending c2) (st', Done r1, Done r2)) :
  (valid_phone (c_phone c1) = true -> valid_phone (c_phone c2) = true ->
     one_winner r1 r2
     /\ exists s', find_slot (c_slotId c1) (pool st') = Some s' /\ available s' = false)
  /\ (valid_phone (c_phone c1) = false -> r1 = inr InvalidContact)
  /\ (valid_phone (c_phone c2) = false -> r2 = inr InvalidContact)
  /\ (valid_phone (c_phone c1) = true -> valid_phone (c_phone c2) = false ->
      is_booking r1 = true)
  /\ (valid_phone (c_phone c1) = false -> valid_phone (c_phone c2) = true ->
      is_booking r2 = true)
  /\ (valid_phone (c_phone c1) = false -> valid_phone (c_phone c2) = false -> st' = st)
  /\ (forall (c : Call) (st0 : Store),
        pool (snd (run_call c st0)) =
        if valid_phone (c_phone c)
           && match find_slot (c_slotId c) (pool st0) with
              | Some s0 => available s0 | None => false end
        then set_unavailable (c_slotId c) (pool st0) else pool st0).
Proof.
  pose proof run_call_conditional_write as Hw.
  assert (Hf2 : find_slot (c_slotId c2) (pool st) = Some s) by (rewrite Hsid; exact Hfind).
  destruct (race_orders st st' c1 c2 r1 r2 Hrun) as [(st1 & H1 & H2) | (st2 & H2 & H1)].
  - destruct (call_outcome c1 st st1 s r1 Hfind H1) as (O1i & O1a & _).
    destruct (valid_phone (c_phone c1)) eqn:V1.
    + destruct (O1a eq_refl Hav) as (Hb1 & s' & Hf' & Ha').
      assert (Hf2' : find_slot (c_slotId c2) (pool st1) = Some s') by (rewrite Hsid; exact Hf').
      destruct (call_outcome c2 st1 st' s' r2 Hf2' H2) as (O2i & _ & O2t).
      destruct (valid_phone (c_phone c2)) eqn:V2.
      * destruct (O2t eq_refl Ha') as [-> ->].
        split_and!; intros; try discriminate; try apply Hw.
        split; [left; auto | eauto].
      * destruct (O2i eq_refl) as [-> ->].
        split_and!; intros; try discriminate; try apply Hw; auto.
    + destruct (O1i eq_refl) as [-> ->].
      destruct (call_outcome c2 st st' s r2 Hf2 H2) as (O2i & O2a & _).
      destruct (valid_phone (c_phone c2)) eqn:V2.
      * destruct (O2a eq_refl Hav) as (Hb2 & _).
        split_and!; intros; try discriminate; try apply Hw; auto.
      * destruct (O2i eq_refl) as [-> ->].
        split_and!; intros; try discriminate; try apply Hw; auto.
  - destruct (call_outcome c2 st st2 s r2 Hf2 H2) as (O2i & O2a & _).
    destruct (valid_phone (c_phone c2)) eqn:V2.
    + destruct (O2a eq_refl Hav) as (Hb2 & s' & Hf' & Ha').
      assert (Hf1' : find_slot (c_slotId c1) (pool st2) = Some s') by (rewrite <- Hsid; exact Hf').
      destruct (call_outcome c1 st2 st' s' r1 Hf1' H1) as (O1i & _ & O1t).
      destruct (valid_phone (c_phone c1)) eqn:V1.
      * destruct (O1t eq_refl Ha') as [-> ->].
        split_and!; intros; try discriminate; try apply Hw.
        split; [right; auto | eauto].
      * destruct (O1i eq_refl) as [-> ->].
        split_and!; intros; try discriminate; try apply Hw; auto.
    + destruct (O2i eq_refl) as [-> ->].
      destruct (call_outcome c1 st st' s r1 Hfind H1) as (O1i & O1a & _).
      destruct (valid_phone (c_phone c1)) eqn:V1.
      * destruct (O1a eq_refl Hav) as (Hb1 & _).
        split_and!; intros; try discriminate; try apply Hw; auto.
      * destruct (O1i eq_refl) as [-> ->].
        split_and!; intros; try discriminate; try apply Hw; auto.
Qed.

Lemma confirmBooking_race_one_winner_witness :
  let c1 := {| c_slotId := "s1"; c_userId := "u1"; c_phone := "07700 900123";
               c_ctx := race_ctx |} in
  let c2 := {| c_slotId := "s1"; c_userId := "u2"; c_phone := "abc";
               c_ctx := race_ctx |} in
  let st1 := snd (run_call c1 race_store) in
  let r1 := fst (run_call c1 race_store) in
  let r2 := fst (run_call c2 st1) in
  let st' := snd (run_call c2 st1) in
  c_slotId c2 = c_slotId c1
  /\ find_slot (c_slotId c1) (pool race_store)
     = Some {| slotId := "s1"; startTime := day_ms; isPriority := true; available := true |}
  /\ rtc step (race_store, Pending c1, Pending c2) (st', Done r1, Done r2)
  /\ ((valid_phone (c_phone c1) = true -> valid_phone (c_phone c2) = true ->
        one_winner r1 r2
        /\ exists s', find_slot (c_slotId c1) (pool st') = Some s' /\ available s' = false)
      /\ (valid_phone (c_phone c1) = false -> r1 = inr InvalidContact)
      /\ (valid_phone (c_phone c2) = false -> r2 = inr InvalidContact)
      /\ (valid_phone (c_phone c1) = true -> valid_phone (c_phone c2) = false ->
          is_booking r1 = true)
      /\ (valid_phone (c_phone c1) = false -> valid_phone (c_phone c2) = true ->
          is_booking r2 = true)
      /\ (valid_phone (c_phone c1) = false -> valid_phone (c_phone c2) = false -> st' = race_store)
      /\ (forall (c : Call) (st0 : Store),
            pool (snd (run_call c st0)) =
            if valid_phone (c_phone c)
               && match find_slot (c_slotId c) (pool st0) with
                  | Some s0 => available s0 | None => false end
            then set_unavailable (c_slotId c) (pool st0) else pool st0)).
Proof.
  intros c1 c2 st1 r1 r2 st'.
  assert (Hrun : rtc step (race_store, Pending c1, Pending c2) (st', Done r1, Done r2)).
  { eapply rtc_l; [apply step_left; apply surjective_pairing |].
    eapply rtc_l; [apply step_right; apply surjective_pairing |].
    apply rtc_refl. }
  split; [reflexivity |]. split; [reflexivity |]. split; [exact Hrun |].
  eapply (confirmBooking_race_one_winner race_store st' c1 c2); [reflexivity | reflexivity | reflexivity |].
  exact Hrun.
Defined.

(** C5 fails as stated: with a malformed phone on both calls, the two
    concurrent calls for an available slot both return [InvalidContact],
    so it is not the case that exactly one gets a [Booking]. *)
Lemma confirmBooking_race_malformed_counterexample :
  let c1 := {| c_slotId := "s1"; c_userId := "u1"; c_phone := "abc";
               c_ctx := race_ctx |} in
  let c2 := {| c_slotId := "s1"; c_userId := "u2"; c_phone := "abc";
               c_ctx := race_ctx |} in
  find_slot "s1" (pool race_store)
    = Some {| slotId := "s1"; startTime := day_ms; isPriority := true; available := true |}
  /\ ~ (forall st' r1 r2,
          rtc step (race_store, Pending c1, Pending c2) (st', Done r1, Done r2) ->
          one_winner r1 r2).
Proof.
  intros c1 c2. split; [reflexivity |]. intros H.
  assert (Hrun : rtc step (race_store, Pending c1, Pending c2)
            (race_store, Done (inr InvalidContact), Done (inr InvalidContact))).
  { eapply rtc_l; [apply step_left; reflexivity |].
    eapply rtc_l; [apply step_right; reflexivity |].
    apply rtc_refl. }
  destruct (H _ _ _ Hrun) as [[Hb _] | [_ Hb]]; discriminate.
Qed.

(** ** Appointment records *)

Module DataApiFacts.
Import DataApi.

Lemma exec_keeps_record (op : ApiOp) (t : gmap string Appointment)
    (i : string) (a : Appointment) :
  t !! i = Some a -> op <> Delete (owner a) i ->
  is_Some (exec op t !! i).
Proof.
  intros Hi Hop. destruct op as [caller a0 | caller a0 | caller j | caller j]; cbn.
  - destruct (t !! id a0) eqn:E; [eauto |].
    rewrite lookup_insert_ne; [eauto | congruence].
  - destruct (t !! id a0) as [old |] eqn:E; [| eauto].
    destruct (String.eqb (owner old) caller); [| eauto].
    destruct (decide (id a0 = i)) as [<- | Hne].
    + rewrite lookup_insert_eq. eauto.
    + rewrite lookup_insert_ne by exact Hne. eauto.
  - destruct (t !! j) as [old |] eqn:E; [| eauto].
    destruct (String.eqb (owner old) caller) eqn:Eo; [| eauto].
    apply String.eqb_eq in Eo.
    destruct (decide (j = i)) as [Heq | Hne].
    + subst j. rewrite Hi in E. injection E as ->. subst caller. contradiction.
    + rewrite lookup_delete_ne by exact Hne. eauto.
  - eauto.
Qed.

(** C9 (as amended): an Appointment (booking) record is removed only by
    a delete issued by the user who owns it at that moment. Under
    [allow.owner()] the owner may also update the record, owner field
    included, and so hand it to another user, who may then delete it;
    other signed-in users may only read it. As long as no delete of the
    record is issued by its owner of the time, the record still exists
    in every reachable state. *)
Theorem booking_survives_unless_owner_deletes (ops : list ApiOp)
    (t : gmap string Appointment) (i : string) (a : Appointment)
    (Hi : t !! i = Some a)
    (Hops : owner_deletes i ops t = false) :
  exists a', exec_ops ops t !! i = Some a'.
Proof.
  revert t a Hi Hops; induction ops as [| op ops IH]; intros t a Hi Hops; cbn in *; [eauto |].
  apply Bool.orb_false_iff in Hops as [Hop Hrest]. rewrite Hi in Hop.
  destruct (exec_keeps_record op t i a Hi) as [a1 Ha1].
  { intros ->. rewrite !String.eqb_refl in Hop. discriminate. }
  exact (IH (exec op t) a1 Ha1 Hrest).
Qed.

Lemma booking_survives_unless_owner_deletes_witness :
  let t := exec (Create "alice" sample_appt) (∅ : gmap string Appointment) in
  let ops := [Delete "mallory" "b1"; Read "bob" "b1";
              Update "alice" (with_owner "bob" sample_appt);
              Delete "alice" "b1"; Update "bob" sample_appt] in
  t !! "b1" = Some sample_appt
  /\ owner_deletes "b1" ops t = false
  /\ exists a', exec_ops ops t !! "b1" = Some a'.
Proof.
  intros t ops.
  assert (Ht : t !! "b1" = Some sample_appt) by reflexivity.
  assert (Hops : owner_deletes "b1" ops t = false) by reflexivity.
  split; [exact Ht |]. split; [exact Hops |].
  exact (booking_survives_unless_owner_deletes ops t "b1" sample_appt Ht Hops).
Defined.

(** C9 fails as stated: a booking created through the data API is gone
    after its owner deletes it, which [allow.owner()] permits. *)
Lemma booking_owner_delete_counterexample :
  let t1 := exec (Create "alice" sample_appt) (∅ : gmap string Appointment) in
  t1 !! "b1" = Some sample_appt
  /\ exec_ops [Delete "alice" "b1"] t1 !! "b1" = None.
Proof. split; reflexivity. Qed.

End DataApiFacts.

(** ** Deadline reminders *)

Module NotificationsFacts.
Import Notifications.

Lemma in_firstn_in {A} (n : nat) (l : list A) (x : A) :
  In x (firstn n l) -> In x l.
Proof.
  revert l; induction n as [| n IH]; intros [| y l]; cbn; try tauto.
  intros [-> | H]; [left; reflexivity | right; exact (IH l H)].
Qed.

Lemma nodup_map_firstn {A B} (f : A -> B) (n : nat) (l : list A) :
  List.NoDup (map f l) -> List.NoDup (map f (firstn n l)).
Proof.
  revert l; induction n as [| n IH]; intros [| y l] Hn; cbn; [constructor.. |].
  inversion Hn as [| ? ? Hnot Hl]; subst. constructor; [| exact (IH l Hl)].
  intros Hin. apply Hnot. apply in_map_iff in Hin as (x & <- & Hx).
  apply in_map. exact (in_firstn_in n l x Hx).
Qed.

Lemma nodup_map_filter {A B} (f : A -> B) (p : A -> bool) (l : list A) :
  List.NoDup (map f l) -> List.NoDup (map f (List.filter p l)).
Proof.
  induction l as [| y l IH]; cbn; [auto |].
  intros Hn. inversion Hn as [| ? ? Hnot Hl]; subst.
  destruct (p y); cbn; [| exact (IH Hl)].
  constructor; [| exact (IH Hl)].
  intros Hin. apply Hnot. apply in_map_iff in Hin as (x & <- & Hx).
  apply filter_In in Hx as [Hx _]. apply in_map. exact Hx.
Qed.

Lemma map_fst_fmap {A B} (l : list (A * B)) : map fst l = l.*1.
Proof. induction l as [| [a b] l IH]; cbn; congruence. Qed.

Lemma scan_spec (ne_absent : bool) (page : nat) (t : gmap string Deadline)
    (k : string) (d : Deadline) :
  In (k, d) (scan ne_absent page t) ->
  t !! k = Some d /\ scan_filter ne_absent d = true.
Proof.
  unfold scan. intros H. apply filter_In in H as [H Hf].
  apply in_firstn_in in H. split; [| exact Hf].
  apply elem_of_map_to_list. by apply list_elem_of_In.
Qed.

Lemma scan_nodup (ne_absent : bool) (page : nat) (t : gmap string Deadline) :
  List.NoDup (map fst (scan ne_absent page t)).
Proof.
  unfold scan. apply nodup_map_filter, nodup_map_firstn.
  rewrite map_fst_fmap. apply NoDup_ListNoDup, NoDup_fst_map_to_list.
Qed.

Lemma scan_filter_spec (ne_absent : bool) (d : Deadline) :
  scan_filter ne_absent d = true ->
  completed d <> Some true /\ reminderSent d <> Some true.
Proof.
  unfold scan_filter, attr_ne_true.
  destruct ne_absent, (completed d) as [[] |], (reminderSent d) as [[] |]; cbn;
    intuition congruence.
Qed.

Lemma due_in_window_spec (now : Z) (d : Deadline) :
  due_in_window now d = true ->
  exists due, dueDate d = Some due /\ now <= due <= now + three_days_ms.
Proof.
  unfold due_in_window. destruct (dueDate d) as [due |]; [| discriminate].
  rewrite Bool.andb_true_iff, !Z.leb_le. intros [H1 H2]. eauto.
Qed.

Lemma alter_mark_keeps (t : gmap string Deadline) (j k : string) :
  rs_true t k -> rs_true (alter mark_sent j t) k.
Proof.
  intros (d & Hd & Hr). unfold rs_true. rewrite lookup_alter.
  case_decide; subst; rewrite Hd; cbn; eauto.
Qed.

Lemma alter_mark_is_Some (t : gmap string Deadline) (j k : string) :
  is_Some (t !! k) -> is_Some (alter mark_sent j t !! k).
Proof.
  intros [d Hd]. rewrite lookup_alter. case_decide; subst; rewrite Hd; eauto.
Qed.

(** Case analysis on one iteration of the [checkDeadlines] loop. *)
Ltac process_cases now prof k d t :=
  destruct (due_in_window now d) eqn:Ew;
  [destruct (getUserEmail prof (userId d)) as [e |] eqn:Ee;
   [destruct (process now prof _ (alter mark_sent k t)) as [t' log] eqn:Ep |] |].

Lemma process_sent_from (now : Z) (prof : string -> option string)
    (items : list (string * Deadline)) (t : gmap string Deadline) (s : Sent) :
  In s (snd (process now prof items t)) ->
  exists d, In (sent_id s, d) items /\ due_in_window now d = true.
Proof.
  revert t; induction items as [| [k d] rest IH]; intros t; cbn; [tauto |].
  process_cases now prof k d t; cbn.
  - intros [<- | H]; [cbn; eauto |].
    specialize (IH (alter mark_sent k t)). rewrite Ep in IH.
    destruct (IH H) as (d' & ? & ?); eauto.
  - intros H. destruct (IH t H) as (d' & ? & ?); eauto.
  - intros H. destruct (IH t H) as (d' & ? & ?); eauto.
Qed.

Lemma process_nodup (now : Z) (prof : string -> option string)
    (items : list (string * Deadline)) (t : gmap string Deadline) :
  List.NoDup (map fst items) ->
  List.NoDup (map sent_id (snd (process now prof items t))).
Proof.
  revert t; induction items as [| [k d] rest IH]; intros t Hn; cbn; [constructor |].
  inversion Hn as [| ? ? Hnot Hrest]; subst.
  process_cases now prof k d t; cbn; [| exact (IH t Hrest) | exact (IH t Hrest)].
  specialize (IH (alter mark_sent k t) Hrest). rewrite Ep in IH.
  constructor; [| exact IH].
  intros Hin. apply in_map_iff in Hin as (s & Hs & Hin).
  pose proof (process_sent_from now prof rest (alter mark_sent k t) s) as Hf.
  rewrite Ep in Hf. destruct (Hf Hin) as (d' & Hd' & _).
  apply Hnot. rewrite <- Hs. apply (in_map fst _ (sent_id s, d')). exact Hd'.
Qed.

Lemma process_keeps (now : Z) (prof : string -> option string)
    (items : list (string * Deadline)) (t : gmap string Deadline) (k : string) :
  rs_true t k -> rs_true (fst (process now prof items t)) k.
Proof.
  revert t; induction items as [| [j d] rest IH]; intros t Hk; cbn; [exact Hk |].
  process_cases now prof j d t; cbn; [| exact (IH t Hk) | exact (IH t Hk)].
  specialize (IH (alter mark_sent j t) (alter_mark_keeps t j k Hk)).
  rewrite Ep in IH. exact IH.
Qed.

Lemma process_marks (now : Z) (prof : string -> option string)
    (items : list (string * Deadline)) (t : gmap string Deadline) :
  (forall k d, In (k, d) items -> is_Some (t !! k)) ->
  forall s, In s (snd (process now prof items t)) ->
  rs_true (fst (process now prof items t)) (sent_id s).
Proof.
  revert t; induction items as [| [k d] rest IH]; intros t Hdom; cbn; [tauto |].
  assert (Hrest : forall t0 : gmap string Deadline, (forall j, is_Some (t !! j) -> is_Some (t0 !! j)) ->
                  forall j d', In (j, d') rest -> is_Some (t0 !! j)).
  { intros t0 Ht0 j d' Hj. apply Ht0. eapply Hdom. right. exact Hj. }
  process_cases now prof k d t; cbn;
    [| apply IH, (Hrest t); auto | apply IH, (Hrest t); auto].
  assert (Hdom' : forall j d', In (j, d') rest ->
                  is_Some (alter mark_sent k t !! j)).
  { apply Hrest. intros j. apply alter_mark_is_Some. }
  intros s [<- | Hs]; cbn.
  - pose proof (process_keeps now prof rest (alter mark_sent k t) k) as Hk.
    rewrite Ep in Hk. apply Hk.
    destruct (Hdom k d (or_introl eq_refl)) as [d0 Hd0].
    exists (mark_sent d0). rewrite lookup_alter_eq, Hd0. split; reflexivity.
  - specialize (IH (alter mark_sent k t) Hdom' s). rewrite Ep in IH. exact (IH Hs).
Qed.

Lemma checkDeadlines_sent (ne_absent : bool) (now : Z) (page : nat)
    (prof : string -> option string) (t : gmap string Deadline) (s : Sent) :
  In s (snd (checkDeadlines ne_absent now page prof t)) ->
  (exists d, t !! sent_id s = Some d /\ completed d <> Some true
             /\ reminderSent d <> Some true /\ due_in_window now d = true)
  /\ rs_true (fst (checkDeadlines ne_absent now page prof t)) (sent_id s).
Proof.
  unfold checkDeadlines. intros Hs. split.
  - destruct (process_sent_from _ _ _ _ _ Hs) as (d & Hin & Hw).
    apply scan_spec in Hin as [Hd Hf]. apply scan_filter_spec in Hf as [Hc Hr].
    eauto 6.
  - apply process_marks; [| exact Hs].
    intros k d Hin. apply scan_spec in Hin as [Hd _]. eauto.
Qed.

Lemma checkDeadlines_nodup (ne_absent : bool) (now : Z) (page : nat)
    (prof : string -> option string) (t : gmap string Deadline) :
  List.NoDup (map sent_id (snd (checkDeadlines ne_absent now page prof t))).
Proof. apply process_nodup, scan_nodup. Qed.

Lemma runs_keeps (ne_absent : bool) (envs : list RunEnv)
    (t : gmap string Deadline) (k : string) :
  rs_true t k -> rs_true (fst (runs ne_absent envs t)) k.
Proof.
  revert t; induction envs as [| e es IH]; intros t Hk; cbn; [exact Hk |].
  destruct (checkDeadlines ne_absent (run_now e) (run_page e) (run_profiles e) t)
    as [t1 l1] eqn:E1.
  destruct (runs ne_absent es t1) as [t2 l2] eqn:E2. cbn.
  assert (Hk1 : rs_true t1 k).
  { pose proof (process_keeps (run_now e) (run_profiles e)
                  (scan ne_absent (run_page e) t) t k Hk) as H.
    unfold checkDeadlines in E1. rewrite E1 in H. exact H. }
  specialize (IH t1 Hk1). rewrite E2 in IH. exact IH.
Qed.

Lemma runs_sent (ne_absent : bool) (envs : list RunEnv) (t : gmap string Deadline) :
  List.NoDup (map sent_id (snd (runs ne_absent envs t)))
  /\ forall s, In s (snd (runs ne_absent envs t)) ->
       ~ rs_true t (sent_id s) /\ rs_true (fst (runs ne_absent envs t)) (sent_id s).
Proof.
  revert t; induction envs as [| e es IH]; intros t; cbn; [split; [constructor | tauto] |].
  pose proof (checkDeadlines_sent ne_absent (run_now e) (run_page e) (run_profiles e) t)
    as Hsent.
  pose proof (checkDeadlines_nodup ne_absent (run_now e) (run_page e) (run_profiles e) t)
    as Hnd.
  destruct (checkDeadlines ne_absent (run_now e) (run_page e) (run_profiles e) t)
    as [t1 l1] eqn:E1.
  pose proof (runs_keeps ne_absent es t1) as Hkeep.
  destruct (IH t1) as [Hnd2 Hs2].
  destruct (runs ne_absent es t1) as [t2 l2] eqn:E2. cbn in *.
  (* a deadline reminded in this run was not marked before it *)
  assert (Hfresh : forall s, In s l1 -> ~ rs_true t (sent_id s)).
  { intros s Hs (d' & Hd' & Hr').
    destruct (Hsent s Hs) as [(d & Hd & _ & Hr & _) _]. congruence. }
  assert (Hkeep1 : forall k, rs_true t k -> rs_true t1 k).
  { intros k Hk. pose proof (process_keeps (run_now e) (run_profiles e)
                               (scan ne_absent (run_page e) t) t k Hk) as H.
    unfold checkDeadlines in E1. rewrite E1 in H. exact H. }
  split.
  - rewrite map_app. apply List.NoDup_app; [exact Hnd | exact Hnd2 |].
    intros a Ha1 Ha2.
    apply in_map_iff in Ha1 as (s1 & <- & Hs1).
    apply in_map_iff in Ha2 as (s2 & Heq & Hs2').
    destruct (Hsent s1 Hs1) as [_ Hmark].
    destruct (Hs2 s2 Hs2') as [Hnot _]. apply Hnot. rewrite Heq. exact Hmark.
  - intros s Hs. apply in_app_or in Hs as [Hs | Hs].
    + split; [exact (Hfresh s Hs) |].
      apply Hkeep. exact (proj2 (Hsent s Hs)).
    + destruct (Hs2 s Hs) as [Hnot Hm]. split; [| exact Hm].
      intros Hk. exact (Hnot (Hkeep1 _ Hk)).
Qed.

(** C10: in [checkDeadlines], an email is sent about a deadline only if,
    in the table the run scanned, it is not completed, its [reminderSent]
    is not [true], and its [dueDate] lies between now and three days
    ahead; after the run its [reminderSent] is [true]. Across any
    sequence of scheduled runs, no deadline is emailed twice. This holds
    whatever a DynamoDB [<>] comparison yields on an absent attribute
    ([ne_absent]), whatever the scan page size, the clock and the user
    profiles at each run. *)
Theorem checkDeadlines_reminder_once (ne_absent : bool) :
  (forall (now : Z) (page : nat) (profiles : string -> option string)
          (t : gmap string Deadline) (s : Sent),
     In s (snd (checkDeadlines ne_absent now page profiles t)) ->
     (exists d due, t !! sent_id s = Some d /\ completed d <> Some true
        /\ reminderSent d <> Some true /\ dueDate d = Some due
        /\ now <= due <= now + three_days_ms)
     /\ rs_true (fst (checkDeadlines ne_absent now page profiles t)) (sent_id s))
  /\ (forall (envs : list RunEnv) (t : gmap string Deadline),
        List.NoDup (map sent_id (snd (runs ne_absent envs t)))).
Proof.
  split.
  - intros now page profiles t s Hs.
    destruct (checkDeadlines_sent ne_absent now page profiles t s Hs)
      as [(d & Hd & Hc & Hr & Hw) Hm].
    apply due_in_window_spec in Hw as (due & Hdue & Hb).
    split; [exists d, due; auto | exact Hm].
  - intros envs t. exact (proj1 (runs_sent ne_absent envs t)).
Qed.

End NotificationsFacts.

(** ** Display code *)

Lemma ceil_div_day_bands (x : Z) :
  (ceil_div x day_ms < 0 <-> x <= - day_ms)
  /\ (ceil_div x day_ms = 0 <-> - day_ms < x <= 0)
  /\ (ceil_div x day_ms = 1 <-> 0 < x <= day_ms)
  /\ (2 <= ceil_div x day_ms <-> day_ms < x).
Proof.
  unfold ceil_div, day_ms.
  pose proof (Z.div_mod (- x) 86400000 ltac:(lia)) as Hdm.
  pose proof (Z.mod_pos_bound (- x) 86400000 ltac:(lia)) as Hb.
  set (q := - x / 86400000) in *. set (r := (- x) mod 86400000) in *.
  repeat split; intros; lia.
Qed.

(** X1: AppointmentBooking's label and colour and the Dashboard's badge
    class put every score in the same band. *)
Theorem urgency_display_consistent (s : Z) :
  (urgencyLabel s = "URGENT" <-> urgencyColor s = "#F87171")
  /\ (urgencyLabel s = "URGENT" <-> urgencyBadge s = "high")
  /\ (urgencyLabel s = "Medium Priority" <-> urgencyColor s = "#FBBF24")
  /\ (urgencyLabel s = "Medium Priority" <-> urgencyBadge s = "medium")
  /\ (urgencyLabel s = "Standard" <-> urgencyColor s = "#60A5FA")
  /\ (urgencyLabel s = "Standard" <-> urgencyBadge s = "low").
Proof.
  unfold urgencyLabel, urgencyColor, urgencyBadge.
  destruct (8 <=? s), (5 <=? s); repeat split; intros H; try reflexivity; discriminate.
Qed.

Lemma getDaysUntil_band_facts (t now : Z) :
  (getDaysUntil (Some t) now = Overdue <-> t <= now - day_ms)
  /\ (getDaysUntil (Some t) now = Today <-> now - day_ms < t <= now)
  /\ (getDaysUntil (Some t) now = Tomorrow <-> now < t <= now + day_ms)
  /\ (now + day_ms < t ->
      exists n, getDaysUntil (Some t) now = InDays n /\ 2 <= n).
Proof.
  destruct (ceil_div_day_bands (t - now)) as (H0 & H1 & H2 & H3).
  unfold getDaysUntil.
  destruct (Z.ltb_spec (ceil_div (t - now) day_ms) 0) as [Hn | Hn];
  [| destruct (Z.eqb_spec (ceil_div (t - now) day_ms) 0) as [Hz | Hz];
     [| destruct (Z.eqb_spec (ceil_div (t - now) day_ms) 1) as [Ho | Ho]]];
  set (c := ceil_div (t - now) day_ms) in *;
  [ pose proof (proj1 H0 Hn) | pose proof (proj1 H1 Hz) | pose proof (proj1 H2 Ho)
  | assert (Hc2 : 2 <= c) by lia; pose proof (proj1 H3 Hc2) ].
  all: refine (conj (conj _ _) (conj (conj _ _) (conj (conj _ _) _))).
  all: intros Hx; try discriminate; try lia;
    try reflexivity; try (eexists; split; [reflexivity | lia]).
Qed.

(** X2: the Dashboard countdown of a deadline due at [t] reads "Overdue"
    only once it is a full day past, "Today" for a deadline due within the
    last 24 hours, "Tomorrow" for one due within the next 24 hours (also
    later the same day), and "n days" with n >= 2 beyond that. *)
Theorem getDaysUntil_bands (t now : Z) :
  (getDaysUntil (Some t) now = Overdue <-> t <= now - day_ms)
  /\ (getDaysUntil (Some t) now = Today <-> now - day_ms < t <= now)
  /\ (getDaysUntil (Some t) now = Tomorrow <-> now < t <= now + day_ms)
  /\ (now + day_ms < t ->
      exists n, getDaysUntil (Some t) now = InDays n /\ 2 <= n).
Proof. exact (getDaysUntil_band_facts t now). Qed.

(** X3: the Dashboard marks a countdown as urgent exactly when the
    deadline's due time is not after the current time. *)
Theorem countdown_urgent_iff (t now : Z) :
  countdown_urgent (Some t) now = true <-> t <= now.
Proof.
  destruct (getDaysUntil_band_facts t now) as (H0 & H1 & H2 & H3).
  unfold countdown_urgent.
  assert (Hd : 0 < day_ms) by (unfold day_ms; lia).
  destruct (Z_le_gt_dec t (now - day_ms)) as [Ha | Ha];
    [rewrite (proj2 H0 Ha); split; intros; [lia | reflexivity] |].
  destruct (Z_le_gt_dec t now) as [Hb | Hb];
    [rewrite (proj2 H1 ltac:(lia)); split; intros; [lia | reflexivity] |].
  destruct (Z_le_gt_dec t (now + day_ms)) as [Hc | Hc];
    [rewrite (proj2 H2 ltac:(lia)); split; intros; [discriminate | lia] |].
  destruct (H3 ltac:(lia)) as (n & -> & _). split; intros; [discriminate | lia].
Qed.

(** X4: the day count in a deadline reminder's subject is between 0 and
    3, and 0 exactly when the deadline is due at the run's own time. *)
Theorem reminder_days_range (now : Z) (d : Notifications.Deadline) (due : Z)
    (Hw : Notifications.due_in_window now d = true)
    (Hdue : Notifications.dueDate d = Some due) :
  0 <= Followups.reminder_days now due <= 3
  /\ (Followups.reminder_days now due = 0 <-> due = now).
Proof.
  unfold Notifications.due_in_window in Hw. rewrite Hdue in Hw.
  apply Bool.andb_true_iff in Hw as [Hw1 Hw2]. apply Z.leb_le in Hw1, Hw2.
  unfold Followups.reminder_days, ceil_div, Notifications.three_days_ms, day_ms in *.
  pose proof (Z.div_mod (- (due - now)) 86400000 ltac:(lia)) as Hdm.
  pose proof (Z.mod_pos_bound (- (due - now)) 86400000 ltac:(lia)) as Hb.
  set (q := - (due - now) / 86400000) in *. set (r := (- (due - now)) mod 86400000) in *.
  repeat split; intros; lia.
Qed.

Lemma reminder_days_range_witness :
  let d := {| Notifications.userId := "u1"; Notifications.title := "Appeal";
              Notifications.dueDate := Some (2 * day_ms + 5);
              Notifications.completed := None; Notifications.reminderSent := None |} in
  Notifications.due_in_window 0 d = true /\ Notifications.dueDate d = Some (2 * day_ms + 5)
  /\ (0 <= Followups.reminder_days 0 (2 * day_ms + 5) <= 3
      /\ (Followups.reminder_days 0 (2 * day_ms + 5) = 0 <-> 2 * day_ms + 5 = 0)).
Proof.
  intros d. split; [reflexivity |]. split; [reflexivity |].
  apply (reminder_days_range 0 d); reflexivity.
Defined.

(** ** Slots grouped by date (BookingSlots.tsx) *)

Lemma push_slot_some (date : string) (s : BookingSlot)
    (acc acc' : list (string * list BookingSlot)) :
  push_slot date s acc = Some acc' ->
  (forall d, group_of d acc' =
     if String.eqb date d
     then Some (match group_of d acc with Some l => l | None => [] end ++ [s])
     else group_of d acc)
  /\ (forall d, In d (map fst acc') <-> d = date \/ In d (map fst acc))
  /\ (List.NoDup (map fst acc) -> List.NoDup (map fst acc'))
  /\ concat (map snd acc') ≡ₚ concat (map snd acc) ++ [s]
  /\ (proto_member date = false \/ In date (map fst acc)).
Proof.
  revert acc'; induction acc as [| [d' l] rest IH]; intros acc'; cbn -[proto_member].
  - destruct (proto_member date) eqn:Ep; cbn -[proto_member]; [discriminate |]. intros [= <-]. cbn.
    split_and!; [intros d; by destruct (String.eqb date d) | naive_solver
                | intros _; repeat constructor; tauto | reflexivity | auto].
  - destruct (String.eqb_spec d' date) as [-> | Hne].
    + intros [= <-]. cbn. split_and!.
      * intros d. by destruct (String.eqb date d).
      * naive_solver.
      * tauto.
      * rewrite <- !app_assoc. apply Permutation_app_head, Permutation_app_comm.
      * auto.
    + destruct (push_slot date s rest) as [r |] eqn:Er; [| discriminate].
      intros [= <-]. destruct (IH r eq_refl) as (Hg & Hin & Hnd & Hperm & Hp).
      cbn. split_and!.
      * intros d. rewrite Hg. destruct (String.eqb_spec d' d), (String.eqb_spec date d);
          subst; try congruence; reflexivity.
      * intros d. rewrite Hin. naive_solver.
      * intros Hn. inversion Hn as [| ? ? Hnot Hrest]; subst.
        constructor; [rewrite Hin; naive_solver | exact (Hnd Hrest)].
      * rewrite Hperm, app_assoc. reflexivity.
      * naive_solver.
Qed.

Lemma push_slot_none (date : string) (s : BookingSlot)
    (acc : list (string * list BookingSlot)) :
  (forall k, In k (map fst acc) -> proto_member k = false) ->
  push_slot date s acc = None <-> proto_member date = true.
Proof.
  induction acc as [| [d' l] rest IH]; intros Hinv; cbn -[proto_member].
  - destruct (proto_member date); split; congruence.
  - destruct (String.eqb_spec d' date) as [-> | Hne].
    + rewrite (Hinv date (or_introl eq_refl)). split; discriminate.
    + rewrite <- IH by (intros k Hk; apply Hinv; right; exact Hk).
      destruct (push_slot date s rest); split; congruence.
Qed.

Lemma slots_fold_none (slots : list BookingSlot) :
  fold_left (fun acc s => match acc with
                          | Some a => push_slot (bs_date s) s a
                          | None => None
                          end) slots None = None.
Proof. induction slots as [| s rest IH]; [reflexivity | exact IH]. Qed.

Lemma slots_fold (slots : list BookingSlot) (acc : list (string * list BookingSlot)) :
  (forall k, In k (map fst acc) -> proto_member k = false) ->
  let r := fold_left (fun acc s => match acc with
                                   | Some a => push_slot (bs_date s) s a
                                   | None => None
                                   end) slots (Some acc) in
  (r = None <-> exists s, In s slots /\ proto_member (bs_date s) = true)
  /\ forall res, r = Some res ->
     (forall d, group_of d res =
        match group_of d acc, List.filter (fun s => String.eqb (bs_date s) d) slots with
        | None, [] => None
        | None, l => Some l
        | Some g, l => Some (g ++ l)
        end)
     /\ (List.NoDup (map fst acc) -> List.NoDup (map fst res))
     /\ (forall d, In d (map fst res) <->
           In d (map fst acc) \/ exists s, In s slots /\ bs_date s = d)
     /\ concat (map snd res) ≡ₚ concat (map snd acc) ++ slots.
Proof.
  revert acc; induction slots as [| s rest IH]; intros acc Hinv; cbn -[proto_member].
  - split; [split; [discriminate | intros (s & [] & _)] |].
    intros res [= <-]. split_and!.
    + intros d. destruct (group_of d acc); [by rewrite app_nil_r | reflexivity].
    + tauto.
    + naive_solver.
    + by rewrite app_nil_r.
  - destruct (push_slot (bs_date s) s acc) as [acc' |] eqn:Ep.
    + destruct (push_slot_some _ _ _ _ Ep) as (Hg & Hin & Hnd & Hperm & Hp).
      assert (Hds : proto_member (bs_date s) = false).
      { destruct Hp as [Hp | Hp]; [exact Hp | exact (Hinv _ Hp)]. }
      assert (Hinv' : forall k, In k (map fst acc') -> proto_member k = false).
      { intros k Hk. apply Hin in Hk as [-> | Hk]; [exact Hds | exact (Hinv k Hk)]. }
      destruct (IH acc' Hinv') as [Hnone Hsome]. split.
      * rewrite Hnone. split; intros (s' & Hs' & Hp'); [exists s'; auto |].
        destruct Hs' as [<- | Hs']; [congruence | eauto].
      * intros res Hres. destruct (Hsome res Hres) as (Hg' & Hnd' & Hin' & Hperm').
        split_and!.
        -- intros d. rewrite Hg', Hg.
           destruct (String.eqb (bs_date s) d); cbn.
           ++ destruct (group_of d acc); by rewrite <- ?app_assoc.
           ++ destruct (group_of d acc), (List.filter _ rest); reflexivity.
        -- intros H. exact (Hnd' (Hnd H)).
        -- intros d. rewrite Hin', Hin. naive_solver.
        -- rewrite Hperm', Hperm, <- app_assoc. reflexivity.
    + rewrite slots_fold_none. split; [| discriminate].
      split; [intros _ | reflexivity].
      exists s. split; [left; reflexivity |].
      exact (proj1 (push_slot_none _ _ _ Hinv) Ep).
Qed.

(** X5: BookingSlots fails (the reduce throws) exactly when some slot's
    date names a member inherited from [Object.prototype], such as
    "constructor" or "__proto__"; otherwise the group under a date
    holds exactly the slots of that date, in the order the agent sent
    them, and a date no slot has gets no group. *)
Theorem slotsByDate_group (slots : list BookingSlot) :
  (slotsByDate slots = None <-> exists s, In s slots /\ proto_member (bs_date s) = true)
  /\ forall groups d, slotsByDate slots = Some groups ->
     group_of d groups =
     match List.filter (fun s => String.eqb (bs_date s) d) slots with
     | [] => None
     | l => Some l
     end.
Proof.
  destruct (slots_fold slots [] ltac:(cbn; tauto)) as [Hnone Hsome].
  split; [exact Hnone |].
  intros groups d Hg. destruct (Hsome groups Hg) as (Hgd & _).
  rewrite Hgd. cbn. destruct (List.filter _ slots); reflexivity.
Qed.

(** X6: when no slot's date names an inherited member, BookingSlots
    builds its date groups; they have pairwise different dates, their
    dates are exactly the dates of the slots, and together they show
    every slot exactly once. *)
Theorem slotsByDate_partition (slots : list BookingSlot)
    (Hdates : forall s, In s slots -> proto_member (bs_date s) = false) :
  exists groups, slotsByDate slots = Some groups
  /\ List.NoDup (map fst groups)
  /\ (forall d, In d (map fst groups) <-> exists s, In s slots /\ bs_date s = d)
  /\ concat (map snd groups) ≡ₚ slots.
Proof.
  destruct (slots_fold slots [] ltac:(cbn; tauto)) as [Hnone Hsome].
  unfold slotsByDate.
  destruct (fold_left _ slots (Some [])) as [groups |] eqn:E.
  - destruct (Hsome groups eq_refl) as (_ & Hnd & Hin & Hperm).
    exists groups. split_and!; [reflexivity | apply Hnd; constructor | | exact Hperm].
    intros d. rewrite Hin. cbn. naive_solver.
  - exfalso. destruct (proj1 Hnone eq_refl) as (s & Hs & Hp).
    rewrite (Hdates s Hs) in Hp. discriminate.
Qed.

Lemma slotsByDate_partition_witness :
  let a := {| bs_slot_id := "s1"; bs_datetime := "2026-10-19T09:00";
              bs_display := "Mon 9:00"; bs_date := "2026-10-19"; bs_time := "09:00" |} in
  let b := {| bs_slot_id := "s2"; bs_datetime := "2026-10-20T10:00";
              bs_display := "Tue 10:00"; bs_date := "2026-10-20"; bs_time := "10:00" |} in
  let c := {| bs_slot_id := "s3"; bs_datetime := "2026-10-19T14:00";
              bs_display := "Mon 14:00"; bs_date := "2026-10-19"; bs_time := "14:00" |} in
  (forall s, In s [a; b; c] -> proto_member (bs_date s) = false)
  /\ exists groups, slotsByDate [a; b; c] = Some groups
     /\ List.NoDup (map fst groups)
     /\ (forall d, In d (map fst groups) <-> exists s, In s [a; b; c] /\ bs_date s = d)
     /\ concat (map snd groups) ≡ₚ [a; b; c].
Proof.
  intros a b c.
  assert (H : forall s, In s [a; b; c] -> proto_member (bs_date s) = false).
  { intros s Hs. repeat destruct Hs as [<- | Hs]; [reflexivity .. | destruct Hs]. }
  split; [exact H | exact (slotsByDate_partition [a; b; c] H)].
Defined.

(** ** Advisor dashboard (AdvisorDashboard.tsx) *)

Module AdvisorFacts.
Import Advisor.

Lemma insert_by_priority_perm (c : Case) (l : list Case) :
  insert_by_priority c l ≡ₚ c :: l.
Proof.
  induction l as [| c' l IH]; cbn; [reflexivity |].
  destruct (_ <=? 0); [reflexivity |].
  rewrite IH. apply perm_swap.
Qed.

Lemma sort_by_priority_perm (l : list Case) : sort_by_priority l ≡ₚ l.
Proof.
  induction l as [| c l IH]; cbn; [reflexivity |].
  rewrite insert_by_priority_perm, IH. reflexivity.
Qed.

Lemma insert_by_priority_sorted (c : Case) (l : list Case) :
  Sorted (fun a b => priorityOrder (urgencyLevel a) <= priorityOrder (urgencyLevel b)) l ->
  Sorted (fun a b => priorityOrder (urgencyLevel a) <= priorityOrder (urgencyLevel b))
         (insert_by_priority c l).
Proof.
  induction l as [| c' l IH]; intros Hs; cbn; [auto |].
  destruct (Z.leb_spec (priorityOrder (urgencyLevel c) - priorityOrder (urgencyLevel c')) 0)
    as [Hle | Hgt].
  - constructor; [exact Hs | constructor; lia].
  - apply Sorted_inv in Hs as [Hl Hhd]. constructor; [exact (IH Hl) |].
    destruct l as [| c'' l]; cbn.
    + constructor. lia.
    + inversion Hhd; subst.
      destruct (_ <=? 0); constructor; lia.
Qed.

Lemma filter_level_insert (L : UrgencyLevel) (c : Case) (l : list Case) :
  List.filter (fun x => bool_decide (urgencyLevel x = L)) (insert_by_priority c l) =
  if bool_decide (urgencyLevel c = L)
  then c :: List.filter (fun x => bool_decide (urgencyLevel x = L)) l
  else List.filter (fun x => bool_decide (urgencyLevel x = L)) l.
Proof.
  induction l as [| c' l IH]; cbn; [by case_bool_decide |].
  destruct (Z.leb_spec (priorityOrder (urgencyLevel c) - priorityOrder (urgencyLevel c')) 0)
    as [Hle | Hgt]; cbn; [reflexivity |].
  rewrite IH. case_bool_decide as Hc; case_bool_decide as Hc'; try reflexivity.
  rewrite Hc, Hc' in Hgt. lia.
Qed.

Lemma filter_level_sort (L : UrgencyLevel) (l : list Case) :
  List.filter (fun x => bool_decide (urgencyLevel x = L)) (sort_by_priority l) =
  List.filter (fun x => bool_decide (urgencyLevel x = L)) l.
Proof.
  induction l as [| c l IH]; cbn; [reflexivity |].
  rewrite filter_level_insert, IH. reflexivity.
Qed.

Lemma filter_all_true {A} (f : A -> bool) (l : list A) :
  (forall x, In x l -> f x = true) -> List.filter f l = l.
Proof.
  induction l as [| x l IH]; intros H; cbn; [reflexivity |].
  rewrite (H x (or_introl eq_refl)), IH; [reflexivity |].
  intros y Hy. exact (H y (or_intror Hy)).
Qed.

Lemma admits_level (L : UrgencyLevel) (c : Case) :
  admits (level_name L) c = bool_decide (urgencyLevel c = L).
Proof. unfold admits. destruct L, (urgencyLevel c); reflexivity. Qed.

(** X7: the advisor's case list is the cases the filter admits, each
    shown once, in non-decreasing priority order (CRISIS first, GENERAL
    last). *)
Theorem filteredCases_sorted_perm (filter : string) (cases : list Case) :
  filteredCases filter cases ≡ₚ List.filter (admits filter) cases
  /\ Sorted (fun a b => priorityOrder (urgencyLevel a) <= priorityOrder (urgencyLevel b))
            (filteredCases filter cases).
Proof.
  unfold filteredCases. split; [apply sort_by_priority_perm |].
  induction (List.filter (admits filter) cases) as [| c l IH]; cbn; [constructor |].
  by apply insert_by_priority_sorted.
Qed.

(** X8: the priority sort of the advisor's list keeps cases of the same
    urgency level in the order they were fetched. *)
Theorem filteredCases_stable (filter : string) (L : UrgencyLevel) (cases : list Case) :
  List.filter (fun x => bool_decide (urgencyLevel x = L)) (filteredCases filter cases) =
  List.filter (fun x => bool_decide (urgencyLevel x = L))
              (List.filter (admits filter) cases).
Proof. apply filter_level_sort. Qed.

(** X9: with a level filter (CRISIS, URGENT, STANDARD or GENERAL
    button), the advisor sees exactly the cases of that level, in the
    order they were fetched. *)
Theorem filteredCases_level (L : UrgencyLevel) (cases : list Case) :
  filteredCases (level_name L) cases =
  List.filter (fun x => bool_decide (urgencyLevel x = L)) cases.
Proof.
  unfold filteredCases.
  assert (Hf : List.filter (admits (level_name L)) cases =
               List.filter (fun x => bool_decide (urgencyLevel x = L)) cases).
  { apply List.filter_ext. intros c. apply admits_level. }
  rewrite Hf.
  assert (HP : forall x, In x (List.filter (fun x => bool_decide (urgencyLevel x = L)) cases) ->
               bool_decide (urgencyLevel x = L) = true).
  { intros x Hx. apply filter_In in Hx as [_ Hx]. exact Hx. }
  transitivity (List.filter (fun x => bool_decide (urgencyLevel x = L))
                  (sort_by_priority (List.filter (fun x => bool_decide (urgencyLevel x = L)) cases))).
  - symmetry. apply filter_all_true. intros x Hx. apply HP.
    exact (Permutation_in x (sort_by_priority_perm _) Hx).
  - rewrite filter_level_sort. exact (filter_all_true _ _ HP).
Qed.

(** X10: the stat cards never count more crisis and urgent cases
    together, nor more pending cases, than the total. *)
Theorem stats_bounded (cases : list Case) :
  (crisis (stats cases) + urgent (stats cases) <= total (stats cases))%nat
  /\ (pending (stats cases) <= total (stats cases))%nat.
Proof.
  unfold stats, count_level; cbn. split.
  - induction cases as [| c l IH]; cbn; [lia |].
    do 2 case_bool_decide; cbn; try congruence; lia.
  - induction cases as [| c l IH]; cbn; [lia |].
    case_bool_decide; cbn; lia.
Qed.

(** X11: a click on a case card writes only that case: every other case
    is unchanged, and no case is created or removed. *)
Theorem click_frame (view : Case) (k : Click) (now : Z) (db : gmap string Case) :
  (forall j, j <> caseId view -> click view k now db !! j = db !! j)
  /\ (forall j, is_Some (click view k now db !! j) <-> is_Some (db !! j)).
Proof.
  unfold click. destruct (shown view k); [| split; reflexivity].
  destruct (db !! caseId view) as [stored |] eqn:E; [| split; reflexivity].
  split.
  - intros j Hj. by rewrite lookup_insert_ne by congruence.
  - intros j. destruct (decide (caseId view = j)) as [<- | Hne].
    + rewrite lookup_insert_eq, E. split; eauto.
    + by rewrite lookup_insert_ne by exact Hne.
Qed.

(** X12: on a card that shows the stored case, a click leaves the case's
    level unchanged and either keeps its status or moves it one step
    along PENDING, IN_PROGRESS, RESOLVED; a RESOLVED or CLOSED case keeps
    its status. *)
Theorem click_fresh_status (view : Case) (k : Click) (now : Z) (db : gmap string Case)
    (Hfresh : db !! caseId view = Some view) :
  exists c', click view k now db !! caseId view = Some c'
    /\ urgencyLevel c' = urgencyLevel view
    /\ (status c' = status view \/ status c' = next_status (status view)).
Proof.
  unfold click. destruct (shown view k) eqn:Es; [rewrite Hfresh | eauto].
  rewrite lookup_insert_eq. eexists. split; [reflexivity |].
  destruct k; cbn in Es |- *; split; try reflexivity; try (left; reflexivity);
    apply bool_decide_eq_true in Es; rewrite Es; right; reflexivity.
Qed.

Lemma click_fresh_status_witness :
  let v := {| caseId := "c1"; urgencyLevel := URGENT; status := PENDING;
              advisorNotes := None; lastUpdated := None |} in
  (<["c1" := v]> (∅ : gmap string Case)) !! caseId v = Some v
  /\ exists c', click v StartWorking 5 (<["c1" := v]> ∅) !! caseId v = Some c'
       /\ urgencyLevel c' = urgencyLevel v
       /\ (status c' = status v \/ status c' = next_status (status v)).
Proof.
  intros v. assert (H : (<["c1" := v]> (∅ : gmap string Case)) !! caseId v = Some v)
    by reflexivity.
  split; [exact H | exact (click_fresh_status v StartWorking 5 _ H)].
Defined.

Lemma click_lookup (view : Case) (k : Click) (now : Z) (db : gmap string Case)
    (j : string) :
  click view k now db !! j =
  (fun c => if shown view k && bool_decide (caseId view = j)
            then apply_click k now c else c) <$> db !! j.
Proof.
  unfold click. destruct (shown view k); cbn.
  - destruct (db !! caseId view) as [stored |] eqn:E.
    + destruct (decide (caseId view = j)) as [<- | Hne].
      * rewrite lookup_insert_eq, E, bool_decide_eq_true_2 by reflexivity. reflexivity.
      * rewrite lookup_insert_ne by exact Hne. rewrite bool_decide_eq_false_2 by exact Hne.
        destruct (db !! j); reflexivity.
    + case_bool_decide; [subst j; rewrite E; reflexivity |]. destruct (db !! j); reflexivity.
  - destruct (db !! j); reflexivity.
Qed.

(** X13: over any session of clicks, stale cards included, the
    dashboard never closes a case (a CLOSED case was CLOSED from the
    start), and a case ends RESOLVED only if it started RESOLVED or a
    Mark Resolved click was made on a card for it. *)
Theorem click_seq_status_origin (clicks : list (Case * Click * Z)) (db : gmap string Case) :
  (forall j c', click_seq clicks db !! j = Some c' -> status c' = CLOSED ->
     exists c, db !! j = Some c /\ status c = CLOSED)
  /\ (forall j c', click_seq clicks db !! j = Some c' -> status c' = RESOLVED ->
     (exists c, db !! j = Some c /\ status c = RESOLVED)
     \/ exists view now, In (view, MarkResolved, now) clicks /\ caseId view = j).
Proof.
  revert db; induction clicks as [| [[view k] now] rest IH]; intros db; cbn; [split; eauto |].
  destruct (IH (click view k now db)) as [IHc IHr].
  assert (Hstep : forall j c1, click view k now db !! j = Some c1 ->
            exists c, db !! j = Some c
              /\ (status c1 = status c
                  \/ (k = StartWorking /\ status c1 = IN_PROGRESS)
                  \/ (k = MarkResolved /\ caseId view = j /\ status c1 = RESOLVED))).
  { intros j c1 H1. rewrite click_lookup in H1.
    destruct (db !! j) as [c |]; [| discriminate]. injection H1 as <-.
    exists c. split; [reflexivity |].
    destruct (shown view k && bool_decide (caseId view = j)) eqn:E; [| auto].
    apply Bool.andb_true_iff in E as [_ E]. apply bool_decide_eq_true in E.
    destruct k; cbn; auto. }
  split.
  - intros j c' H Hc. destruct (IHc j c' H Hc) as (c1 & H1 & Hc1).
    destruct (Hstep j c1 H1) as (c & Hc0 & [Hs | [[_ Hs] | (_ & _ & Hs)]]);
      exists c; split; congruence.
  - intros j c' H Hr. destruct (IHr j c' H Hr) as [(c1 & H1 & Hr1) | (v & n & Hin & Hv)].
    + destruct (Hstep j c1 H1) as (c & Hc0 & [Hs | [[_ Hs] | (-> & Hv & _)]]).
      * left. exists c. split; congruence.
      * congruence.
      * right. exists view, now. auto.
    + right. exists v, n. auto.
Qed.

(** X14: notes and status are written separately: saving notes never
    changes a case's status, the status buttons never change its notes,
    and no click changes its urgency level. *)
Theorem click_fields (view : Case) (k : Click) (now : Z) (db : gmap string Case)
    (j : string) (c c' : Case)
    (Hbefore : db !! j = Some c) (Hafter : click view k now db !! j = Some c') :
  urgencyLevel c' = urgencyLevel c
  /\ match k with
     | SaveNotes _ => status c' = status c
     | _ => advisorNotes c' = advisorNotes c
     end.
Proof.
  revert Hafter. unfold click.
  destruct (shown view k); [| rewrite Hbefore; intros [= <-]; destruct k; auto].
  destruct (db !! caseId view) as [stored |] eqn:E;
    [| rewrite Hbefore; intros [= <-]; destruct k; auto].
  destruct (decide (caseId view = j)) as [<- | Hne].
  - rewrite lookup_insert_eq. intros [= <-]. rewrite E in Hbefore.
    injection Hbefore as ->. destruct k; cbn; auto.
  - rewrite lookup_insert_ne by exact Hne. rewrite Hbefore. intros [= <-].
    destruct k; auto.
Qed.

Lemma click_fields_witness :
  let v := {| caseId := "c1"; urgencyLevel := CRISIS; status := IN_PROGRESS;
              advisorNotes := None; lastUpdated := None |} in
  (<["c1" := v]> (∅ : gmap string Case)) !! "c1" = Some v
  /\ click v (SaveNotes "called back") 7 (<["c1" := v]> ∅) !! "c1" =
       Some (apply_click (SaveNotes "called back") 7 v)
  /\ (urgencyLevel (apply_click (SaveNotes "called back") 7 v) = urgencyLevel v
      /\ status (apply_click (SaveNotes "called back") 7 v) = status v).
Proof.
  intros v.
  assert (H1 : (<["c1" := v]> (∅ : gmap string Case)) !! "c1" = Some v) by reflexivity.
  assert (H2 : click v (SaveNotes "called back") 7 (<["c1" := v]> ∅) !! "c1" =
               Some (apply_click (SaveNotes "called back") 7 v)) by reflexivity.
  split; [exact H1 |]. split; [exact H2 |].
  exact (click_fields v (SaveNotes "called back") 7 _ "c1" v _ H1 H2).
Defined.

End AdvisorFacts.

(** ** Appointment follow-ups and the reminder writes (notifications handler) *)

Module FollowupsFacts.
Import Notifications Followups.

Lemma followup_scan_spec (page : nat) (t : gmap string FAppointment)
    (k : string) (a : FAppointment) :
  In (k, a) (followup_scan page t) -> t !! k = Some a /\ followup_filter a = true.
Proof.
  unfold followup_scan. intros H. apply filter_In in H as [H Hf].
  apply NotificationsFacts.in_firstn_in in H. split; [| exact Hf].
  apply elem_of_map_to_list. by apply list_elem_of_In.
Qed.

Lemma followup_scan_nodup (page : nat) (t : gmap string FAppointment) :
  List.NoDup (map fst (followup_scan page t)).
Proof.
  unfold followup_scan.
  apply NotificationsFacts.nodup_map_filter, NotificationsFacts.nodup_map_firstn.
  rewrite NotificationsFacts.map_fst_fmap. apply NoDup_ListNoDup, NoDup_fst_map_to_list.
Qed.

Lemma followups_sent_from (now : Z) (prof : string -> option string)
    (items : list (string * FAppointment)) (s : Sent) :
  In s (followups now prof items) ->
  exists a, In (sent_id s, a) items /\ in_followup_window now a = true
            /\ getUserEmail prof (fa_userId a) = Some (sent_to s).
Proof.
  induction items as [| [k a] rest IH]; cbn; [tauto |].
  assert (Hr : In s (followups now prof rest) ->
               exists a', ((k, a) = (sent_id s, a') \/ In (sent_id s, a') rest)
                 /\ in_followup_window now a' = true
                 /\ getUserEmail prof (fa_userId a') = Some (sent_to s)).
  { intros H. destruct (IH H) as (a' & Hin & Hw & He). exists a'. auto. }
  destruct (in_followup_window now a) eqn:Ew; [| exact Hr].
  destruct (getUserEmail prof (fa_userId a)) as [e |] eqn:Ee; [| exact Hr].
  intros [<- | H]; [cbn; exists a; auto | exact (Hr H)].
Qed.

Lemma followups_nodup (now : Z) (prof : string -> option string)
    (items : list (string * FAppointment)) :
  List.NoDup (map fst items) -> List.NoDup (map sent_id (followups now prof items)).
Proof.
  induction items as [| [k a] rest IH]; intros Hn; cbn; [constructor |].
  inversion Hn as [| ? ? Hnot Hrest]; subst.
  destruct (in_followup_window now a); [| exact (IH Hrest)].
  destruct (getUserEmail prof (fa_userId a)) as [e |]; [| exact (IH Hrest)].
  cbn. constructor; [| exact (IH Hrest)].
  intros Hin. apply in_map_iff in Hin as (s & Hs & Hin).
  destruct (followups_sent_from now prof rest s Hin) as (a' & Ha' & _).
  apply Hnot. rewrite <- Hs. exact (in_map fst _ (sent_id s, a') Ha').
Qed.

Lemma followups_complete (now : Z) (prof : string -> option string)
    (items : list (string * FAppointment)) (k : string) (a : FAppointment) (e : string) :
  In (k, a) items -> in_followup_window now a = true ->
  getUserEmail prof (fa_userId a) = Some e ->
  In {| sent_id := k; sent_to := e |} (followups now prof items).
Proof.
  intros Hin Hw He. induction items as [| [k' a'] rest IH]; [destruct Hin |].
  cbn. destruct Hin as [[= -> ->] | Hin].
  - rewrite Hw, He. left. reflexivity.
  - destruct (in_followup_window now a'); [destruct (getUserEmail prof (fa_userId a')) |];
      try right; auto.
Qed.

Lemma checkAppointmentFollowups_from (now : Z) (page : nat)
    (prof : string -> option string) (t : gmap string FAppointment) (s : Sent) :
  In s (checkAppointmentFollowups now page prof t) ->
  exists a at_, t !! sent_id s = Some a /\ fa_status a = Some "completed"%string
    /\ fa_scheduledTime a = Some at_ /\ now - day_ms <= at_ <= now
    /\ getUserEmail prof (fa_userId a) = Some (sent_to s).
Proof.
  unfold checkAppointmentFollowups. intros Hs.
  destruct (followups_sent_from _ _ _ _ Hs) as (a & Hin & Hw & He).
  apply followup_scan_spec in Hin as [Ha Hf].
  unfold followup_filter in Hf. unfold in_followup_window in Hw.
  destruct (fa_status a) as [st |] eqn:Est; [| discriminate].
  apply String.eqb_eq in Hf. subst st.
  destruct (fa_scheduledTime a) as [at_ |] eqn:Et; [| discriminate].
  apply Bool.andb_true_iff in Hw as [Hw1 Hw2]. apply Z.leb_le in Hw1, Hw2.
  exists a, at_. repeat split; auto; lia.
Qed.

(** X15: a follow-up email goes only to the user of an appointment whose
    status is "completed" and whose scheduled time lies within the last
    24 hours (both ends included), at that user's non-empty profile
    email, and at most once per appointment in a run; when the scan
    covers the whole table, every such appointment gets its email. *)
Theorem checkAppointmentFollowups_sent (now : Z) (page : nat)
    (prof : string -> option string) (t : gmap string FAppointment) :
  List.NoDup (map sent_id (checkAppointmentFollowups now page prof t))
  /\ (forall s, In s (checkAppointmentFollowups now page prof t) ->
     exists a at_, t !! sent_id s = Some a /\ fa_status a = Some "completed"%string
       /\ fa_scheduledTime a = Some at_ /\ now - day_ms <= at_ <= now
       /\ getUserEmail prof (fa_userId a) = Some (sent_to s))
  /\ ((size t <= page)%nat ->
      forall k a at_ e, t !! k = Some a -> fa_status a = Some "completed"%string ->
        fa_scheduledTime a = Some at_ -> now - day_ms <= at_ <= now ->
        getUserEmail prof (fa_userId a) = Some e ->
        In {| sent_id := k; sent_to := e |} (checkAppointmentFollowups now page prof t)).
Proof.
  split_and!; [apply followups_nodup, followup_scan_nodup | apply checkAppointmentFollowups_from |].
  intros Hpage k a at_ e Hk Hst Ht Hw He.
  unfold checkAppointmentFollowups. apply followups_complete with a; [| | exact He].
  - unfold followup_scan. apply filter_In. split.
    + rewrite firstn_all2 by (rewrite length_map_to_list; exact Hpage).
      apply list_elem_of_In, elem_of_map_to_list. exact Hk.
    + cbn. unfold followup_filter. rewrite Hst. reflexivity.
  - unfold in_followup_window. rewrite Ht. apply Bool.andb_true_iff. split; apply Z.leb_le; lia.
Qed.

(** X16: nothing records that a follow-up was sent, so an appointment
    whose record is unchanged gets a follow-up in two runs only if the
    runs are at most 24 hours apart; with the window closed at both
    ends, two daily runs exactly 24 hours apart both email an
    appointment scheduled at the time of the first. *)
Theorem followup_repeat_within_day (now1 now2 : Z) (page1 page2 : nat)
    (prof1 prof2 : string -> option string) (t1 t2 : gmap string FAppointment)
    (s1 s2 : Sent)
    (H1 : In s1 (checkAppointmentFollowups now1 page1 prof1 t1))
    (H2 : In s2 (checkAppointmentFollowups now2 page2 prof2 t2))
    (Hid : sent_id s1 = sent_id s2)
    (Hsame : t1 !! sent_id s1 = t2 !! sent_id s1)
    (Hle : now1 <= now2) :
  now2 - now1 <= day_ms.
Proof.
  destruct (checkAppointmentFollowups_from _ _ _ _ _ H1)
    as (a1 & at1 & Ha1 & _ & Ht1 & Hb1 & _).
  destruct (checkAppointmentFollowups_from _ _ _ _ _ H2)
    as (a2 & at2 & Ha2 & _ & Ht2 & Hb2 & _).
  rewrite <- Hid, <- Hsame, Ha1 in Ha2. injection Ha2 as <-.
  rewrite Ht1 in Ht2. injection Ht2 as <-. lia.
Qed.

Lemma followup_repeat_within_day_witness :
  let t := <["a1" := {| fa_userId := "u1"; fa_bureauName := None;
                        fa_scheduledTime := Some day_ms; fa_category := "debt";
                        fa_status := Some "completed"%string |}]>
             (∅ : gmap string FAppointment) in
  let prof := fun _ : string => Some "u1@example.org"%string in
  let s := {| sent_id := "a1"; sent_to := "u1@example.org" |} in
  In s (checkAppointmentFollowups day_ms 1 prof t)
  /\ In s (checkAppointmentFollowups (2 * day_ms) 1 prof t)
  /\ (2 * day_ms) - day_ms <= day_ms.
Proof.
  intros t prof s.
  assert (H1 : In s (checkAppointmentFollowups day_ms 1 prof t)) by (vm_compute; left; reflexivity).
  assert (H2 : In s (checkAppointmentFollowups (2 * day_ms) 1 prof t))
    by (vm_compute; left; reflexivity).
  split; [exact H1 |]. split; [exact H2 |].
  exact (followup_repeat_within_day day_ms (2 * day_ms) 1 1 prof prof t t s s
           H1 H2 eq_refl eq_refl ltac:(unfold day_ms; lia)).
Defined.

Lemma mark_sent_idem (d : Deadline) : mark_sent (mark_sent d) = mark_sent d.
Proof. reflexivity. Qed.

Lemma process_frame (now : Z) (prof : string -> option string)
    (items : list (string * Deadline)) (t : gmap string Deadline) (k : string) :
  (In k (map sent_id (snd (process now prof items t))) ->
     fst (process now prof items t) !! k = mark_sent <$> t !! k)
  /\ (~ In k (map sent_id (snd (process now prof items t))) ->
     fst (process now prof items t) !! k = t !! k).
Proof.
  revert t; induction items as [| [j d] rest IH]; intros t; cbn; [split; [tauto | reflexivity] |].
  destruct (due_in_window now d); [| exact (IH t)].
  destruct (getUserEmail prof (userId d)) as [e |]; [| exact (IH t)].
  specialize (IH (alter mark_sent j t)).
  destruct (process now prof rest (alter mark_sent j t)) as [t' log]. cbn in IH |- *.
  destruct IH as [IHin IHout]. split.
  - intros Hk. destruct (decide (j = k)) as [<- | Hne].
    + destruct (in_dec String.string_dec j (map sent_id log)) as [Hj | Hj].
      * rewrite (IHin Hj), lookup_alter_eq. destruct (t !! j); reflexivity.
      * rewrite (IHout Hj), lookup_alter_eq. reflexivity.
    + destruct Hk as [Hk | Hk]; [contradiction |].
      rewrite (IHin Hk), lookup_alter_ne by exact Hne. reflexivity.
  - intros Hk. rewrite IHout by tauto. apply lookup_alter_ne. intros ->. tauto.
Qed.

(** X17: a [checkDeadlines] run writes nothing but [reminderSent = true],
    and only on the deadlines it emailed: every other deadline, for
    instance one whose user has no email address, is left exactly as it
    was and is considered again by the next run. *)
Theorem checkDeadlines_frame (ne_absent : bool) (now : Z) (page : nat)
    (prof : string -> option string) (t : gmap string Deadline) (k : string) :
  (In k (map sent_id (snd (checkDeadlines ne_absent now page prof t))) ->
     fst (checkDeadlines ne_absent now page prof t) !! k = mark_sent <$> t !! k)
  /\ (~ In k (map sent_id (snd (checkDeadlines ne_absent now page prof t))) ->
     fst (checkDeadlines ne_absent now page prof t) !! k = t !! k).
Proof. apply process_frame. Qed.

End FollowupsFacts.

(** ** Appointment records under other users' requests *)

Module DataApiOwner.
Import DataApi.

Lemma exec_non_owner (op : ApiOp) (t : gmap string Appointment)
    (i : string) (a : Appointment) :
  t !! i = Some a -> api_caller op <> owner a -> exec op t !! i = Some a.
Proof.
  intros Hi Hc. destruct op as [c a0 | c a0 | c j | c j]; cbn in Hc |- *.
  - destruct (t !! id a0) eqn:E; [exact Hi |].
    rewrite lookup_insert_ne; [exact Hi | congruence].
  - destruct (t !! id a0) as [old |] eqn:E; [| exact Hi].
    destruct (String.eqb_spec (owner old) c) as [<- | _]; [| exact Hi].
    destruct (decide (id a0 = i)) as [Heq | Hne].
    + rewrite Heq, Hi in E. injection E as ->. contradiction.
    + rewrite lookup_insert_ne by exact Hne. exact Hi.
  - destruct (t !! j) as [old |] eqn:E; [| exact Hi].
    destruct (String.eqb_spec (owner old) c) as [<- | _]; [| exact Hi].
    destruct (decide (j = i)) as [-> | Hne].
    + rewrite Hi in E. injection E as ->. contradiction.
    + rewrite lookup_delete_ne by exact Hne. exact Hi.
  - exact Hi.
Qed.

(** X18: requests issued by anyone but a booking's owner leave the
    booking record exactly as it is: other signed-in users can neither
    change, replace nor delete it. *)
Theorem booking_unchanged_by_others (ops : list ApiOp) (t : gmap string Appointment)
    (i : string) (a : Appointment)
    (Hi : t !! i = Some a)
    (Hops : List.Forall (fun op => api_caller op <> owner a) ops) :
  exec_ops ops t !! i = Some a.
Proof.
  revert t Hi; induction Hops as [| op ops Hop _ IH]; intros t Hi; cbn; [exact Hi |].
  apply IH. exact (exec_non_owner op t i a Hi Hop).
Qed.

Lemma booking_unchanged_by_others_witness :
  let t := exec (Create "alice" sample_appt) (∅ : gmap string Appointment) in
  let ops := [Update "mallory" (with_owner "mallory" sample_appt);
              Delete "mallory" "b1"; Create "bob" sample_appt; Read "bob" "b1"] in
  t !! "b1" = Some sample_appt
  /\ List.Forall (fun op => api_caller op <> owner sample_appt) ops
  /\ exec_ops ops t !! "b1" = Some sample_appt.
Proof.
  intros t ops.
  assert (Ht : t !! "b1" = Some sample_appt) by reflexivity.
  assert (Hops : List.Forall (fun op => api_caller op <> owner sample_appt) ops).
  { repeat constructor; cbn; discriminate. }
  split; [exact Ht |]. split; [exact Hops |].
  exact (booking_unchanged_by_others ops t "b1" sample_appt Ht Hops).
Defined.

End DataApiOwner.
